(** * Dogbone: corner-relief placement for CNC joints

    A verification development for the geometric and topological core of
    the Dogbone add-in: the corner resolver, the dihedral classifier, the
    placement engine and the top-face locator with its plane translator
    ([dbutils.py], [Dogbone.py]).

    Modelling conventions.
    - Python floats are idealised as real numbers ([R]); rounding is not
      modelled, and the tolerance of the host kernel's comparisons
      ([isParallelTo], [isEqualTo]) is idealised to exact comparison.
    - The host kernel's geometry classes ([Point3D], [Vector3D], [Plane],
      [InfiniteLine3D]) are modelled by their documented mathematical
      meaning in [Module Kernel].
    - The B-Rep object graph is cyclic (face <-> edge <-> vertex).  It is
      flattened into records: a vertex carries the entity tokens of its
      incident edges (the only attribute the code reads from them), an edge
      carries its two vertices, a face carries its vertices and edges, and
      the back references edge -> faces / co-edges and face -> body are
      passed alongside ([EdgeUse], the [body] argument).
    - A Python exception is a value of [result]. *)

From Stdlib Require Import Reals Lra Lia ZArith List.
From stdpp Require Import base gmap sets list strings.

Local Open Scope R_scope.

(** ** Results of fallible Python code *)

Inductive exn : Type :=
  | NameError      (* raise NameError("returnVal len != 2") *)
  | ValueError     (* tuple unpacking of the wrong number of values *)
  | IndexError     (* sortedFaceList[-1] on an empty list *)
  | AttributeError (* an attribute read on None *)
  | TypeError      (* None passed where the kernel expects an object *).

Inductive result (A : Type) : Type :=
  | Ok (a : A)
  | Raise (e : exn).
Arguments Ok {A} a.
Arguments Raise {A} e.

#[global] Instance result_ret : MRet result := fun A a => Ok a.
#[global] Instance result_bind : MBind result := fun A B k r =>
  match r with
  | Ok a => k a
  | Raise e => Raise e
  end.

(** ** The host kernel's geometry, idealised over the reals *)

Module Kernel.

Record Vector3D : Type := Vec { vx : R; vy : R; vz : R }.
Record Point3D : Type := Pt { px : R; py : R; pz : R }.

Definition vectorTo (p q : Point3D) : Vector3D :=
  Vec (px q - px p) (py q - py p) (pz q - pz p).

Definition translateBy (p : Point3D) (v : Vector3D) : Point3D :=
  Pt (px p + vx v) (py p + vy v) (pz p + vz v).

Definition add (u v : Vector3D) : Vector3D :=
  Vec (vx u + vx v) (vy u + vy v) (vz u + vz v).

Definition scaleBy (v : Vector3D) (k : R) : Vector3D :=
  Vec (k * vx v) (k * vy v) (k * vz v).

Definition dotProduct (u v : Vector3D) : R :=
  vx u * vx v + vy u * vy v + vz u * vz v.

Definition crossProduct (u v : Vector3D) : Vector3D :=
  Vec (vy u * vz v - vz u * vy v)
      (vz u * vx v - vx u * vz v)
      (vx u * vy v - vy u * vx v).

Definition vlength (v : Vector3D) : R := sqrt (dotProduct v v).

(** [Vector3D.normalize] leaves a zero-length vector unchanged. *)
Definition normalize (v : Vector3D) : Vector3D :=
  if Req_dec_T (vlength v) 0 then v else scaleBy v (/ vlength v).

(** [Vector3D.angleTo]: the unsigned angle, in [0, PI]. *)
Definition angleTo (u v : Vector3D) : R :=
  acos (dotProduct u v / (vlength u * vlength v)).

Definition isZero (v : Vector3D) : bool :=
  if Req_dec_T (vx v) 0 then
    if Req_dec_T (vy v) 0 then
      if Req_dec_T (vz v) 0 then true else false
    else false
  else false.

(** [Vector3D.isParallelTo], with the kernel's tolerance idealised to zero:
    the two directions span a common line. *)
Definition isParallelTo (u v : Vector3D) : bool := isZero (crossProduct u v).

(** [Point3D.isEqualTo], with zero tolerance. *)
Definition isEqualTo (p q : Point3D) : bool := isZero (vectorTo p q).

Definition distanceTo (p q : Point3D) : R := vlength (vectorTo p q).

Record Plane : Type := Plane_create { origin : Point3D; normal : Vector3D }.
Record InfiniteLine3D : Type :=
  InfiniteLine3D_create { lorigin : Point3D; direction : Vector3D }.

(** [Plane.intersectWithLine]: [None] when the line is parallel to the
    plane. *)
Definition intersectWithLine (pl : Plane) (ln : InfiniteLine3D)
  : option Point3D :=
  let d := dotProduct (direction ln) (normal pl) in
  if Req_dec_T d 0 then None
  else
    let t := dotProduct (vectorTo (lorigin ln) (origin pl)) (normal pl) / d in
    Some (translateBy (lorigin ln) (scaleBy (direction ln) t)).

End Kernel.
Import Kernel.

(** ** The B-Rep topology read by the add-in *)

Inductive SurfaceType : Type := PlaneSurface | OtherSurface.

Record BRepVertex : Type := mkVertex {
  vertexId : Z;
  geometry : Point3D;
  v_edges : list string   (* entity tokens of [vertex.edges] *)
}.

Record BRepEdge : Type := mkEdge {
  entityToken : string;
  startVertex : BRepVertex;
  endVertex : BRepVertex;
  e_length : R
}.

Record BRepFace : Type := mkFace {
  faceId : Z;
  objectType : SurfaceType;          (* face.geometry.objectType *)
  f_normal : Vector3D;               (* evaluator.getNormalAtPoint(pointOnFace)[1] *)
  pointOnFace : Point3D;
  assemblyContext : option Point3D;  (* [Some p]: a proxy, p = nativeObject.pointOnFace *)
  f_vertices : list BRepVertex;
  f_edges : list BRepEdge
}.

Record BRepCoEdge : Type := mkCoEdge {
  loopFace : BRepFace;               (* coEdge.loop.face *)
  isOpposedToEdge : bool
}.

(** An edge together with its back references [edge.faces] and
    [edge.coEdges]; an entry of [faces] is [None] for a Python [None]. *)
Record EdgeUse : Type := mkEdgeUse {
  u_edge : BRepEdge;
  u_faces : list (option BRepFace);
  u_coEdges : list BRepCoEdge
}.

Record BRepBody : Type := mkBody { b_faces : list BRepFace }.

(** [v in face.vertices]: identity of topological vertices. *)
Definition vertexIn (v : BRepVertex) (vs : list BRepVertex) : bool :=
  existsb (fun w => Z.eqb (vertexId w) (vertexId v)) vs.

(** ** 4.1 Corner topology resolver ([dbutils.getCornerEdgesAtFace]) *)

Section Resolver.

(** Python's [hash] on entity-token strings. *)
Variable hash : string → Z.

(** The order in which Python iterates a set.  CPython walks the set's hash
    table, so the order depends on how the set was built; the resolver's
    intersection set is built from the keys of the vertex's edges and of the
    face's edges, in their iteration order.  [setOrder vertexKeys faceKeys X]
    is the iteration order of the set [X] built from them. *)
Variable setOrder : list Z → list Z → gset Z → list Z.

(** [{hash(edge.entityToken): edge for edge in es}]: later entries
    overwrite earlier ones with the same key. *)
Definition faceEdgeDict (es : list BRepEdge) : gmap Z BRepEdge :=
  foldl (fun m e => <[hash (entityToken e) := e]> m) ∅ es.

Definition vertexEdgeDict (toks : list string) : gmap Z string :=
  foldl (fun m t => <[hash t := t]> m) ∅ toks.

Definition cornerVertex (face : BRepFace) (edge : BRepEdge) : BRepVertex :=
  if vertexIn (startVertex edge) (f_vertices face)
  then startVertex edge else endVertex edge.

Definition commonEdges (face : BRepFace) (edge : BRepEdge) : gset Z :=
  dom (vertexEdgeDict (v_edges (cornerVertex face edge)))
  ∩ dom (faceEdgeDict (f_edges face)).

Definition getCornerEdgesAtFace (face : BRepFace) (edge : BRepEdge)
  : result (list BRepEdge) :=
  let startVertex := cornerVertex face edge in
  let faceEdges := faceEdgeDict (f_edges face) in
  let common := commonEdges face edge in
  if decide (size common ≠ 2%nat) then Raise NameError
  else Ok (omap (fun token => faceEdges !! token)
                (setOrder (hash <$> v_edges startVertex)
                          ((fun e => hash (entityToken e)) <$> f_edges face)
                          common)).

End Resolver.

(** What is known of Python's set iteration: every element once, in some
    order. *)
Definition validSetOrder (setOrder : list Z → list Z → gset Z → list Z)
  : Prop :=
  ∀ vertexKeys faceKeys X, setOrder vertexKeys faceKeys X ≡ₚ elements X.

(** One admissible iteration order, used to run the resolver on examples. *)
Definition canonicalOrder (vertexKeys faceKeys : list Z) (X : gset Z)
  : list Z := elements X.

(** Two outcomes of the resolver that differ at most in the order of the
    edges returned. *)
Definition sameUpToOrder (r1 r2 : result (list BRepEdge)) : Prop :=
  match r1, r2 with
  | Ok l1, Ok l2 => l1 ≡ₚ l2
  | Raise e1, Raise e2 => e1 = e2
  | _, _ => False
  end.

(** ** Edge helpers ([dbutils.getEdgeVector], [correctedEdgeVector],
       [getFaceNormal]) *)

Definition getEdgeVector (edge : BRepEdge) (refFace : option BRepFace)
    (reverse : bool) : Vector3D :=
  let reverse :=
    match refFace with
    | Some f => vertexIn (endVertex edge) (f_vertices f)
    | None => reverse
    end in
  let '(startPoint, endPoint) :=
    if reverse
    then (geometry (endVertex edge), geometry (startVertex edge))
    else (geometry (startVertex edge), geometry (endVertex edge)) in
  vectorTo startPoint endPoint.

Definition correctedEdgeVector (edge : BRepEdge) (commonPoint : Point3D)
  : Vector3D :=
  if isEqualTo (geometry (startVertex edge)) commonPoint
  then vectorTo (geometry (startVertex edge)) (geometry (endVertex edge))
  else vectorTo (geometry (endVertex edge)) (geometry (startVertex edge)).

Definition getFaceNormal (face : BRepFace) : Vector3D := f_normal face.

Definition isPlane (face : BRepFace) : bool :=
  match objectType face with PlaneSurface => true | OtherSurface => false end.

(** ** 4.2 Dihedral angle classifier ([dbutils.getAngleBetweenFaces]) *)

Definition getAngleBetweenFaces (edge : EdgeUse) : result R :=
  match u_faces edge with
  | [face1; face2] =>
    match face1, face2 with
    | Some face1, Some face2 =>
      if negb (isPlane face1) || negb (isPlane face2) then Ok 0
      else
        let normal1 := f_normal face1 in
        let normal2 := f_normal face2 in
        let normalAngle := angleTo normal1 normal2 in
        match u_coEdges edge with
        | [coEdge1; coEdge2] =>
          let coEdge :=
            if Z.eqb (faceId (loopFace coEdge1)) (faceId face1)
            then coEdge1 else coEdge2 in
          let edgeVec :=
            getEdgeVector (u_edge edge) None (isOpposedToEdge coEdge) in
          let cross := crossProduct normal2 normal1 in
          Ok (if Rgt_dec (angleTo edgeVec cross) (PI / 2)
              then (PI * 2) - (PI - normalAngle)
              else PI - normalAngle)
        | _ => Raise ValueError
        end
    | _, _ => Ok 0
    end
  | _ => Raise ValueError
  end.

(** The classifier as the specification words it: the interior angle read
    from the two unit normals and the running direction of the edge. *)
Definition interiorAngle (normal1 normal2 running : Vector3D) : R :=
  let normalAngle := angleTo normal1 normal2 in
  let cross := crossProduct normal2 normal1 in
  if Rgt_dec (angleTo cross running) (PI / 2)
  then 2 * PI - (PI - normalAngle)
  else PI - normalAngle.

(** The running direction of the edge along the co-edge of [face1]. *)
Definition runningDirection (edge : BRepEdge) (coEdge1 coEdge2 : BRepCoEdge)
    (face1 : BRepFace) : Vector3D :=
  let coEdge :=
    if Z.eqb (faceId (loopFace coEdge1)) (faceId face1)
    then coEdge1 else coEdge2 in
  if isOpposedToEdge coEdge
  then vectorTo (geometry (endVertex edge)) (geometry (startVertex edge))
  else vectorTo (geometry (startVertex edge)) (geometry (endVertex edge)).

(** ** 4.4 Top-face locator and plane translator
       ([dbutils.getTopFace], [getTranslateVectorBetweenFaces]) *)

(** [face.vertices.item(0).geometry] *)
Definition firstVertexPoint (face : BRepFace) : result Point3D :=
  match f_vertices face with
  | v :: _ => Ok (geometry v)
  | [] => Raise AttributeError
  end.

(** [face.nativeObject.pointOnFace if face.assemblyContext else
    face.pointOnFace] *)
Definition nativePointOnFace (face : BRepFace) : Point3D :=
  match assemblyContext face with
  | Some nativePoint => nativePoint
  | None => pointOnFace face
  end.

(** [a.vectorTo(b)] where either may be [None]. *)
Definition vectorToOpt (a b : option Point3D) : result Vector3D :=
  match a, b with
  | None, _ => Raise AttributeError
  | Some _, None => Raise TypeError
  | Some a, Some b => Ok (vectorTo a b)
  end.

(** Python's [sorted(l, key=lambda x: x[1])]: a stable ascending sort. *)
Fixpoint insertByKey {A : Type} (x : A * R) (l : list (A * R))
  : list (A * R) :=
  match l with
  | [] => [x]
  | y :: l' =>
    if Rle_dec (snd x) (snd y) then x :: y :: l' else y :: insertByKey x l'
  end.

Definition sorted {A : Type} (l : list (A * R)) : list (A * R) :=
  foldr insertByKey [] l.

(** The loop of [getTopFace] collecting [[face, distance]] pairs. *)
Fixpoint parallelFaceList (normal : Vector3D) (refLine : InfiniteLine3D)
    (refPoint : option Point3D) (faces : list BRepFace)
  : result (list (BRepFace * R)) :=
  match faces with
  | [] => Ok []
  | face :: rest =>
    if negb (isParallelTo normal (getFaceNormal face))
    then parallelFaceList normal refLine refPoint rest
    else
      p0 ← firstVertexPoint face;
      let facePlane := Plane_create p0 normal in
      let intersectionPoint := intersectWithLine facePlane refLine in
      directionVector ← vectorToOpt refPoint intersectionPoint;
      let distance := dotProduct directionVector normal in
      faceList ← parallelFaceList normal refLine refPoint rest;
      Ok ((face, distance) :: faceList)
  end.

Definition getTopFace (body : BRepBody) (selectedFace : BRepFace)
  : result (BRepFace * Point3D) :=
  let normal := getFaceNormal selectedFace in
  p0 ← firstVertexPoint selectedFace;
  let refPlane := Plane_create p0 normal in
  let refLine := InfiniteLine3D_create p0 normal in
  let refPoint := intersectWithLine refPlane refLine in
  faceList ← parallelFaceList normal refLine refPoint (b_faces body);
  let sortedFaceList := sorted faceList in
  match last sortedFaceList with
  | None => Raise IndexError
  | Some top =>
    let refPoint := nativePointOnFace (fst top) in
    Ok (fst top, refPoint)
  end.

(** [None] stands for the Python value [False]. *)
Definition getTranslateVectorBetweenFaces (fromFace toFace : BRepFace)
  : result (option Vector3D) :=
  let normal := getFaceNormal fromFace in
  if negb (isParallelTo normal (getFaceNormal fromFace)) then Ok None
  else
    p0 ← firstVertexPoint fromFace;
    let fromFacePlane := Plane_create p0 normal in
    let fromFaceLine := InfiniteLine3D_create p0 normal in
    let fromFacePoint := intersectWithLine fromFacePlane fromFaceLine in
    q0 ← firstVertexPoint toFace;
    let toFacePlane := Plane_create q0 normal in
    let toFacePoint := intersectWithLine toFacePlane fromFaceLine in
    translateVector ← vectorToOpt fromFacePoint toFacePoint;
    Ok (Some translateVector).

(** ** 4.3 Placement engine ([Dogbone.onExecute],
       [createParametricDogbones], [createStaticDogbones]) *)

(** The fields of [DbParams] the placement reads; [toolDia] and
    [toolDiaOffset] are the evaluated length expressions. *)
Record DbParams : Type := mkParams {
  toolDia : R;
  toolDiaOffset : R;
  dbType : string;
  minimalPercent : R;
  fromTop : bool;
  parametric : bool
}.

Definition isMinimal (param : DbParams) : bool :=
  String.eqb (dbType param) "Minimal Dogbone".
Definition isMortise (param : DbParams) : bool :=
  String.eqb (dbType param) "Mortise Dogbone".

(** [onExecute], static branch: [self.radius] and [self.offset]. *)
Definition staticRadius (param : DbParams) : R :=
  (toolDia param + toolDiaOffset param) / 2.

Definition staticOffset (param : DbParams) : R :=
  let radius := staticRadius param in
  if isMinimal param then radius / sqrt 2 * (1 + minimalPercent param / 100)
  else if isMortise param then radius
  else radius / sqrt 2.

(** [onExecute], parametric branch: the values of the user parameters after
    the kernel has evaluated the expressions the code assigns to them. *)
Record UserParameters : Type := mkUserParams {
  dbToolDia : R;
  dbOffset : R;
  dbRadius : R;        (* '(dbToolDia + dbOffset)/2' *)
  dbMinPercent : R;
  dbHoleOffset : R
}.

Definition onExecute_userParams (param : DbParams) : UserParameters :=
  let dia := toolDia param in
  let off := toolDiaOffset param in
  let radius := (dia + off) / 2 in
  let minPercent := minimalPercent param in
  let holeOffset :=
    if isMinimal param
    then radius / sqrt 2 * (1 + minPercent / 100)
           (* 'dbRadius / sqrt(2)' + ' * (1 + dbMinPercent/100)' *)
    else if isMortise param then radius        (* 'dbRadius' *)
    else radius / sqrt 2                       (* 'dbRadius / sqrt(2)' *) in
  mkUserParams dia off radius minPercent holeOffset.

(** [adsk.core.ValueInput] *)
Inductive ValueInput : Type :=
  | createByReal (r : R)
  | createByString (s : string).

(** The length the kernel reads from a [ValueInput]; the only expression
    the placement passes is the parameter name ['dbHoleOffset']. *)
Definition valueOf (up : UserParameters) (v : ValueInput) : R :=
  match v with
  | createByReal r => r
  | createByString s =>
    if String.eqb s "dbHoleOffset" then dbHoleOffset up
    else if String.eqb s "dbRadius" then dbRadius up
    else 0
  end.

(** [centreDistance], computed alike by both creation routines. *)
Definition centreDistance (param : DbParams) (radius : R) : R :=
  radius * (if isMinimal param then 1 + minimalPercent param / 100 else 1).

(** What one iteration of the edge loop hands to
    [setPositionByPlaneAndOffsets]. *)
Record HolePosition : Type := mkHolePosition {
  centrePoint : Point3D;
  dirVect : Vector3D;
  edge1OffsetByStr : ValueInput;
  edge2OffsetByStr : ValueInput
}.

(** One iteration of the edge loop of [createParametricDogbones], from
    [centrePoint = startVertex.geometry.copy()] to the translation onto the
    top face.  [edge1], [edge2] are the resolver's two corner edges,
    [selectedEdgeFaces] the two faces of the selected edge, and
    [transformVector] the translation to the top face. *)
Definition createParametricDogbones_edge (param : DbParams) (longSide : bool)
    (radius : R) (startVertex : BRepVertex) (edge1 edge2 : BRepEdge)
    (selectedEdgeFaces : BRepFace * BRepFace) (transformVector : Vector3D)
  : HolePosition :=
  let offsetByStr := createByString "dbHoleOffset" in
  let centreDistance := centreDistance param radius in
  let centrePoint := geometry startVertex in
  let dirVect := getFaceNormal (fst selectedEdgeFaces) in
  let dirVect := add dirVect (getFaceNormal (snd selectedEdgeFaces)) in
  let dirVect := normalize dirVect in
  let dirVect := scaleBy dirVect centreDistance in
  let '(dirVect, edge1OffsetByStr, edge2OffsetByStr) :=
    if isMortise param then
      let direction0 := correctedEdgeVector edge1 (geometry startVertex) in
      let direction1 := correctedEdgeVector edge2 (geometry startVertex) in
      if longSide then
        if Rgt_dec (e_length edge1) (e_length edge2)
        then (direction0, createByReal 0, offsetByStr)
        else (direction1, offsetByStr, createByReal 0)
      else
        if Rgt_dec (e_length edge1) (e_length edge2)
        then (direction1, offsetByStr, createByReal 0)
        else (direction0, createByReal 0, offsetByStr)
    else
      let dirVect := getFaceNormal (fst selectedEdgeFaces) in
      let dirVect := add dirVect (getFaceNormal (snd selectedEdgeFaces)) in
      (dirVect, offsetByStr, offsetByStr) in
  let centrePoint := translateBy centrePoint dirVect in
  let centrePoint :=
    if fromTop param then translateBy centrePoint transformVector
    else centrePoint in
  mkHolePosition centrePoint dirVect edge1OffsetByStr edge2OffsetByStr.

(** The attributes of a [DbEdge] read by [createStaticDogbones]; the class
    itself lives in [DbClasses], outside the files at hand. *)
Record DbEdge : Type := mkDbEdge {
  dogboneCentre : Point3D;
  endPoints : Point3D * Point3D;
  cornerVector : Vector3D
}.

(** One iteration of the edge loop of [createStaticDogbones], up to the
    model-space centre point; [edge0], [edge1] are the resolver's two
    corner edges (read in Mortise style only). *)
Definition createStaticDogbones_edge (param : DbParams) (longSide : bool)
    (radius : R) (selectedEdge : DbEdge) (edge0 edge1 : BRepEdge)
    (transformVector : Vector3D) : Point3D * Vector3D :=
  let centreDistance := centreDistance param radius in
  let centrePoint := dogboneCentre selectedEdge in
  let '(startVertex, endVertex) := endPoints selectedEdge in
  let dirVect :=
    if isMortise param then
      let direction0 := correctedEdgeVector edge0 startVertex in
      let direction1 := correctedEdgeVector edge1 startVertex in
      let dirVect :=
        if longSide then
          if Rgt_dec (e_length edge0) (e_length edge1)
          then direction0 else direction1
        else
          if Rgt_dec (e_length edge0) (e_length edge1)
          then direction1 else direction0 in
      normalize dirVect
    else cornerVector selectedEdge in
  let dirVect := scaleBy dirVect centreDistance in
  let centrePoint := translateBy centrePoint dirVect in
  let centrePoint :=
    if fromTop param then translateBy centrePoint transformVector
    else centrePoint in
  (centrePoint, dirVect).


(** The kernel's [setPositionByPlaneAndOffsets] at a right-angle corner: the
    hole centre lies in the plane at distance [offset1] from the first edge
    and [offset2] from the second, on the side of the hint point.  [inward1]
    and [inward2] are the in-plane unit directions perpendicular to the two
    edges that point to that side (at an interior corner, the normals of the
    two walls standing on the edges). *)
Definition centreByPlaneAndOffsets (corner : Point3D)
    (inward1 inward2 : Vector3D) (offset1 offset2 : R) : Point3D :=
  translateBy (translateBy corner (scaleBy inward1 offset1))
              (scaleBy inward2 offset2).

(** ** Vocabulary of the locator's specification *)

(** The locator's reference point on a face: its first vertex. *)
Definition referencePoint (face : BRepFace) : Point3D :=
  match f_vertices face with
  | v :: _ => geometry v
  | [] => Pt 0 0 0
  end.

(** Signed distance of the plane of [face] from the reference face,
    measured along the reference face's normal. *)
Definition signedDistance (selectedFace face : BRepFace) : R :=
  dotProduct (vectorTo (referencePoint selectedFace) (referencePoint face))
             (getFaceNormal selectedFace).

Definition parallelTo (selectedFace face : BRepFace) : bool :=
  isParallelTo (getFaceNormal selectedFace) (getFaceNormal face).

(** ** Test fixtures *)

(** A stand-in for Python's string hash (Python's own is salted per
    process; the resolver's theorems hold for every hash function). *)
Definition polyHash (s : string) : Z :=
  fold_left (fun h c => (h * 31 + Z.of_nat (Ascii.nat_of_ascii c))%Z)
            (String.list_ascii_of_string s) 0%Z.

Module Cube.
(** The unit cube's top face (z = 1) and the corner above the origin. *)
Definition v001 := mkVertex 1 (Pt 0 0 1) ["eA"; "eB"; "eDrop"].
Definition v101 := mkVertex 2 (Pt 1 0 1) ["eA"; "eC"; "eDrop2"].
Definition v011 := mkVertex 3 (Pt 0 1 1) ["eB"; "eD"; "eDrop3"].
Definition v111 := mkVertex 4 (Pt 1 1 1) ["eC"; "eD"; "eDrop4"].
Definition v000 := mkVertex 5 (Pt 0 0 0) ["eDrop"; "eE"; "eF"].
Definition v100 := mkVertex 6 (Pt 1 0 0) ["eDrop2"; "eE"; "eG"].

Definition eA := mkEdge "eA" v001 v101 1.
Definition eB := mkEdge "eB" v011 v001 1.
Definition eC := mkEdge "eC" v101 v111 1.
Definition eD := mkEdge "eD" v111 v011 1.
Definition eDrop := mkEdge "eDrop" v000 v001 1.
Definition eE := mkEdge "eE" v000 v100 1.

Definition eDrop2 := mkEdge "eDrop2" v100 v101 1.

Definition top : BRepFace :=
  mkFace 10 PlaneSurface (Vec 0 0 1) (Pt (1/2) (1/2) 1) None
         [v001; v101; v111; v011] [eA; eC; eD; eB].
Definition front : BRepFace :=
  mkFace 11 PlaneSurface (Vec 0 (-1) 0) (Pt (1/2) 0 (1/2)) None
         [v000; v100; v101; v001] [eE; eDrop2; eA; eDrop].
(** The same wall, had it been cylindrical. *)
Definition round : BRepFace :=
  mkFace 12 OtherSurface (Vec 0 (-1) 0) (Pt (1/2) 0 (1/2)) None
         [v000; v100; v101; v001] [eE; eDrop2; eA; eDrop].

(** The outer loop of [top] runs along [eA], that of [front] against it. *)
Definition coTop := mkCoEdge top false.
Definition coFront := mkCoEdge front true.
Definition useA := mkEdgeUse eA [Some top; Some front] [coTop; coFront].
Definition useRound :=
  mkEdgeUse eA [Some top; Some round] [coTop; mkCoEdge round true].
End Cube.

Module Prism.
(** A rectangular prism of height [h] standing on z = 0; normals point out
    of the solid.  The locator reads vertices and normals only, so the
    faces carry no edge lists. *)
Section Height.
Variable h : R.
Definition b00 := mkVertex 1 (Pt 0 0 0) [].
Definition b10 := mkVertex 2 (Pt 2 0 0) [].
Definition b11 := mkVertex 3 (Pt 2 1 0) [].
Definition b01 := mkVertex 4 (Pt 0 1 0) [].
Definition t00 := mkVertex 5 (Pt 0 0 h) [].
Definition t10 := mkVertex 6 (Pt 2 0 h) [].
Definition t11 := mkVertex 7 (Pt 2 1 h) [].
Definition t01 := mkVertex 8 (Pt 0 1 h) [].

Definition bottom :=
  mkFace 1 PlaneSurface (Vec 0 0 (-1)) (Pt 1 (1/2) 0) None
         [b00; b01; b11; b10] [].
Definition top :=
  mkFace 2 PlaneSurface (Vec 0 0 1) (Pt 1 (1/2) h) None
         [t00; t10; t11; t01] [].
Definition front :=
  mkFace 3 PlaneSurface (Vec 0 (-1) 0) (Pt 1 0 (h/2)) None
         [b00; b10; t10; t00] [].
Definition back :=
  mkFace 4 PlaneSurface (Vec 0 1 0) (Pt 1 1 (h/2)) None
         [b01; t01; t11; b11] [].
Definition left :=
  mkFace 5 PlaneSurface (Vec (-1) 0 0) (Pt 0 (1/2) (h/2)) None
         [b00; t00; t01; b01] [].
Definition right :=
  mkFace 6 PlaneSurface (Vec 1 0 0) (Pt 2 (1/2) (h/2)) None
         [t10; b10; b11; t11] [].
Definition body := mkBody [bottom; top; front; back; left; right].
End Height.
End Prism.

Module Pocket.
(** A block with a pocket: the pocket floor at z = 0 and two coplanar rim
    faces at z = 2, all facing up, over an underside at z = -1. *)
Definition f00 := mkVertex 1 (Pt 0 0 0) [].
Definition a00 := mkVertex 2 (Pt (-1) 0 2) [].
Definition c00 := mkVertex 3 (Pt 3 0 2) [].
Definition u00 := mkVertex 4 (Pt (-1) 0 (-1)) [].

Definition floor :=
  mkFace 1 PlaneSurface (Vec 0 0 1) (Pt 1 1 0) None [f00] [].
Definition rimA :=
  mkFace 2 PlaneSurface (Vec 0 0 1) (Pt (-1/2) 1 2) None [a00] [].
Definition rimB :=
  mkFace 3 PlaneSurface (Vec 0 0 1) (Pt (7/2) 1 2) None [c00] [].
Definition underside :=
  mkFace 4 PlaneSurface (Vec 0 0 (-1)) (Pt 1 1 (-1)) None [u00] [].
Definition wall :=
  mkFace 5 PlaneSurface (Vec 1 0 0) (Pt 0 1 1) None [f00] [].
Definition body := mkBody [floor; rimA; wall; rimB; underside].
End Pocket.

Module Corner.
(** An interior corner of a pocket at the origin: walls x = 0 and y = 0
    facing the pocket, floor edges of length 10 (along x) and 4 (along y),
    and the dogbone edge rising along z. *)
Definition corner := mkVertex 1 (Pt 0 0 0) ["eX"; "eY"; "eZ"].
Definition endX := mkVertex 2 (Pt 10 0 0) ["eX"].
Definition endY := mkVertex 3 (Pt 0 4 0) ["eY"].
Definition endY10 := mkVertex 4 (Pt 0 10 0) ["eY10"].
Definition eX := mkEdge "eX" corner endX 10.
Definition eY := mkEdge "eY" endY corner 4.
Definition eY10 := mkEdge "eY10" corner endY10 10.
Definition wallX :=
  mkFace 1 PlaneSurface (Vec 1 0 0) (Pt 0 2 1) None [corner; endY] [eY].
Definition wallY :=
  mkFace 2 PlaneSurface (Vec 0 1 0) (Pt 5 0 1) None [corner; endX] [eX].

Definition normalParam := mkParams 2 0 "Normal Dogbone" 10 false true.
Definition minimalParam := mkParams 2 0 "Minimal Dogbone" 10 false true.
Definition mortiseParam := mkParams 2 0 "Mortise Dogbone" 10 false true.
Definition dbEdge :=
  mkDbEdge (Pt 0 0 0) (Pt 0 0 0, Pt 0 0 1) (Vec (/ sqrt 2) (/ sqrt 2) 0).
End Corner.

(** ** Further routines of [dbutils.py] and [Dogbone.py] *)

(** [dbutils.findExtent]: the end of the dogbone edge away from the face. *)
Definition findExtent (face : BRepFace) (edge : BRepEdge) : BRepVertex :=
  if vertexIn (startVertex edge) (f_vertices face)
  then endVertex edge else startVertex edge.

(** The same topological edge stored with the opposite orientation. *)
Definition reversedEdge (edge : BRepEdge) : BRepEdge :=
  mkEdge (entityToken edge) (endVertex edge) (startVertex edge)
         (e_length edge).

(** The same face with its boundary edges listed in another order. *)
Definition withEdges (face : BRepFace) (es : list BRepEdge) : BRepFace :=
  mkFace (faceId face) (objectType face) (f_normal face) (pointOnFace face)
         (assemblyContext face) (f_vertices face) es.

(** A command input as [onValidate] reads it: its id, and the attribute
    the handler looks at for that id. *)
Record CommandInput : Type := mkInput {
  inputId : string;
  selectionCount : Z;
  inputValue : R
}.

(** [Dogbone.onValidate]: the loop over [cmd.commandInputs], threading
    [args.areInputsValid]. *)
Definition onValidate (inputs : list CommandInput) (areInputsValid : bool)
  : bool :=
  foldl (fun valid input =>
           if String.eqb (inputId input) "faceSelect" then
             if Z.ltb (selectionCount input) 1 then false else valid
           else if String.eqb (inputId input) "toolDia" then
             if Rle_dec (inputValue input) 0 then false else valid
           else valid)
        areInputsValid inputs.

(** A hole feature of the component, as the unsuppress loop sees it. *)
Record HoleFeature : Type := mkHole {
  holeName : string;
  isSuppressed : bool
}.

(** The loop closing each face in [createParametricDogbones]:
    [for hole in holes: if hole.name[:7] != 'dogbone': break;
     hole.isSuppressed = False]. *)
Fixpoint unsuppressDogbones (holes : list HoleFeature) : list HoleFeature :=
  match holes with
  | [] => []
  | hole :: rest =>
    if negb (String.eqb (String.substring 0 7 (holeName hole)) "dogbone")
    then hole :: rest
    else mkHole (holeName hole) false :: unsuppressDogbones rest
  end.

#[global] Instance R_eq_dec : EqDecision R := Req_dec_T.

(** The depth grouping of [createStaticDogbones]: [holeList] pairs a depth
    with a sketch point; [depthList] is the set of depths (listed here in
    order of first appearance; Python's set order is unspecified), and each
    depth collects the points recorded with exactly that depth. *)
Definition depthList {P : Type} (holeList : list (R * P)) : list R :=
  remove_dups (fst <$> holeList).

Definition pointCollection {P : Type} (depth : R) (holeList : list (R * P))
  : list P :=
  snd <$> filter (fun h => fst h = depth) holeList.

Definition holeGroups {P : Type} (holeList : list (R * P))
  : list (R * list P) :=
  (fun depth => (depth, pointCollection depth holeList)) <$> depthList holeList.


(** [hole.name[:7] == 'dogbone'] *)
Definition namedDogbone (hole : HoleFeature) : bool :=
  String.eqb (String.substring 0 7 (holeName hole)) "dogbone".

(** * Theorems *)

(** ** Corner topology resolver *)

Section ResolverFacts.
Variable hash : string → Z.
Variable setOrder : list Z → list Z → gset Z → list Z.
Hypothesis setOrder_valid : validSetOrder setOrder.

Lemma faceEdgeDict_acc (es : list BRepEdge) (m : gmap Z BRepEdge) k e :
  foldl (fun m e => <[hash (entityToken e) := e]> m) m es !! k = Some e →
  m !! k = Some e ∨ (e ∈ es ∧ hash (entityToken e) = k).
Proof.
  revert m. induction es as [|a es IH]; intros m H; simpl in H.
  - by left.
  - apply IH in H as [H|[H1 H2]].
    + apply lookup_insert_Some in H as [[<- <-]|[_ H]].
      * right. split; [left|done].
      * by left.
    + right. split; [by right|done].
Qed.

Lemma faceEdgeDict_lookup (es : list BRepEdge) k e :
  faceEdgeDict hash es !! k = Some e → e ∈ es ∧ hash (entityToken e) = k.
Proof.
  intros H. apply faceEdgeDict_acc in H as [H|H]; [|done].
  by rewrite lookup_empty in H.
Qed.

Lemma vertexEdgeDict_acc (toks : list string) (m : gmap Z string) k :
  k ∈ dom (foldl (fun m t => <[hash t := t]> m) m toks) ↔
  k ∈ dom m ∨ k ∈ hash <$> toks.
Proof.
  revert m. induction toks as [|t toks IH]; intros m; simpl.
  - rewrite elem_of_nil. tauto.
  - rewrite IH, dom_insert, elem_of_union, elem_of_singleton, elem_of_cons.
    intuition.
Qed.

Lemma elem_of_dom_vertexEdgeDict (toks : list string) k :
  k ∈ dom (vertexEdgeDict hash toks) ↔ k ∈ hash <$> toks.
Proof.
  unfold vertexEdgeDict. rewrite vertexEdgeDict_acc, dom_empty.
  rewrite elem_of_empty. tauto.
Qed.

(** What the resolver returns, for every hash function and every iteration
    order of the intersection set: with exactly two common keys, the two
    face edges stored under them; otherwise [NameError].  The dogbone edge
    plays no part beyond choosing the corner vertex. *)
Lemma getCornerEdgesAtFace_result (face : BRepFace) (edge : BRepEdge) :
  (size (commonEdges hash face edge) = 2%nat →
     ∃ a b : BRepEdge,
       getCornerEdgesAtFace hash setOrder face edge = Ok [a; b]
       ∧ a ≠ b
       ∧ a ∈ f_edges face ∧ b ∈ f_edges face
       ∧ hash (entityToken a) ∈ hash <$> v_edges (cornerVertex face edge)
       ∧ hash (entityToken b) ∈ hash <$> v_edges (cornerVertex face edge)
       ∧ (∀ k, k ∈ commonEdges hash face edge ↔
               k = hash (entityToken a) ∨ k = hash (entityToken b))
       ∧ faceEdgeDict hash (f_edges face) !! hash (entityToken a) = Some a
       ∧ faceEdgeDict hash (f_edges face) !! hash (entityToken b) = Some b
       ∧ (edge ∉ f_edges face → a ≠ edge ∧ b ≠ edge))
  ∧ (size (commonEdges hash face edge) ≠ 2%nat →
     getCornerEdgesAtFace hash setOrder face edge = Raise NameError).
Proof.
  split; intros Hsz; unfold getCornerEdgesAtFace.
  - destruct (decide _) as [Hne|_]; [done|].
    set (order := setOrder _ _ _).
    assert (Hperm : order ≡ₚ elements (commonEdges hash face edge))
      by apply setOrder_valid.
    assert (Hnd : NoDup order) by (rewrite Hperm; apply NoDup_elements).
    assert (Hmem : ∀ k, k ∈ order ↔ k ∈ commonEdges hash face edge).
    { intros k. by rewrite Hperm, elem_of_elements. }
    assert (Hin : ∀ k, k ∈ order →
              k ∈ hash <$> v_edges (cornerVertex face edge)
              ∧ ∃ e, faceEdgeDict hash (f_edges face) !! k = Some e).
    { intros k Hk. apply Hmem in Hk. unfold commonEdges in Hk.
      apply elem_of_intersection in Hk as [Hv Hf].
      split; [by apply elem_of_dom_vertexEdgeDict|].
      by apply elem_of_dom in Hf. }
    assert (Hlen : length order = 2%nat).
    { rewrite Hperm. exact Hsz. }
    destruct order as [|k1 [|k2 [|? ?]]]; try discriminate.
    destruct (Hin k1) as [Hv1 [a Ha]]; [left|].
    destruct (Hin k2) as [Hv2 [b Hb]]; [right; left|].
    exists a, b. simpl. rewrite Ha, Hb. simpl.
    destruct (faceEdgeDict_lookup _ _ _ Ha) as [Ha1 Ha2].
    destruct (faceEdgeDict_lookup _ _ _ Hb) as [Hb1 Hb2].
    apply NoDup_cons in Hnd as [Hk _].
    split_and!; try done.
    + intros ->. apply Hk. rewrite <- Ha2, Hb2. left.
    + by rewrite Ha2.
    + by rewrite Hb2.
    + intros k. rewrite <- Hmem, Ha2, Hb2.
      rewrite !elem_of_cons, elem_of_nil. tauto.
    + by rewrite Ha2.
    + by rewrite Hb2.
    + intros Hoff. split; intros ->; by apply Hoff.
  - by destruct (decide _).
Qed.

End ResolverFacts.

Lemma canonicalOrder_valid : validSetOrder canonicalOrder.
Proof. intros vs fs X. reflexivity. Qed.

(** A cube corner: the edge dropping from the top face resolves to the two
    top edges meeting it. *)
Example getCornerEdgesAtFace_cube_corner :
  ∃ a b : BRepEdge,
    getCornerEdgesAtFace polyHash canonicalOrder Cube.top Cube.eDrop
    = Ok [a; b]
    ∧ a ≠ b ∧ a ≠ Cube.eDrop ∧ b ≠ Cube.eDrop
    ∧ a ∈ f_edges Cube.top ∧ b ∈ f_edges Cube.top.
Proof.
  destruct (getCornerEdgesAtFace_result polyHash canonicalOrder
              canonicalOrder_valid Cube.top Cube.eDrop) as [H _].
  destruct H as (a & b & Hres & Hab & Ha & Hb & _ & _ & _ & _ & _ & Hoff).
  { vm_compute. reflexivity. }
  exists a, b. destruct Hoff as [? ?]; [|done].
  intros Hin. simpl in Hin.
  repeat (apply elem_of_cons in Hin as [Hin|Hin]; [discriminate|]).
  by apply elem_of_nil in Hin.
Qed.

(** C1 (evaluation of the code).  Given a boundary edge of the face as the
    dogbone edge (the top edge eA of the cube's top face, whose start vertex
    is a vertex of that face), the resolver does not fail although only one
    common edge is left once the dogbone edge is taken out: whatever the
    iteration order of the set, it returns two edges, one of which is the
    dogbone edge itself. *)
Theorem getCornerEdgesAtFace_returns_dogbone_edge
    (setOrder : list Z → list Z → gset Z → list Z) :
  validSetOrder setOrder →
  Cube.eA ∈ f_edges Cube.top
  ∧ vertexIn (startVertex Cube.eA) (f_vertices Cube.top) = true
  ∧ size (commonEdges polyHash Cube.top Cube.eA
          ∖ {[ polyHash (entityToken Cube.eA) ]}) = 1%nat
  ∧ ∃ a b : BRepEdge,
      getCornerEdgesAtFace polyHash setOrder Cube.top Cube.eA = Ok [a; b]
      ∧ (a = Cube.eA ∨ b = Cube.eA).
Proof.
  intros Hvalid. split_and!.
  - left.
  - vm_compute. reflexivity.
  - vm_compute. reflexivity.
  - destruct (getCornerEdgesAtFace_result polyHash setOrder Hvalid
                Cube.top Cube.eA) as [H _].
    destruct H as (a & b & Hres & _ & _ & _ & _ & _ & Hkeys & Ha & Hb & _).
    { vm_compute. reflexivity. }
    exists a, b. split; [done|].
    assert (HA : faceEdgeDict polyHash (f_edges Cube.top)
                   !! polyHash (entityToken Cube.eA) = Some Cube.eA)
      by (vm_compute; reflexivity).
    assert (Hin : polyHash (entityToken Cube.eA)
                  ∈ commonEdges polyHash Cube.top Cube.eA).
    { apply (bool_decide_unpack _). vm_compute. reflexivity. }
    apply Hkeys in Hin as [Hk|Hk]; rewrite <- Hk, HA in *.
    + left. congruence.
    + right. congruence.
Qed.

Lemma getCornerEdgesAtFace_returns_dogbone_edge_witness :
  ∃ a b : BRepEdge,
    getCornerEdgesAtFace polyHash canonicalOrder Cube.top Cube.eA = Ok [a; b]
    ∧ (a = Cube.eA ∨ b = Cube.eA).
Proof.
  apply (getCornerEdgesAtFace_returns_dogbone_edge canonicalOrder).
  apply canonicalOrder_valid.
Defined.

(** An edge with no endpoint on the face is rejected. *)
Example getCornerEdgesAtFace_off_face :
  getCornerEdgesAtFace polyHash canonicalOrder Cube.top Cube.eE
  = Raise NameError.
Proof. vm_compute. reflexivity. Qed.

(** ** Dihedral angle classifier *)

Lemma dotProduct_comm (u v : Vector3D) : dotProduct u v = dotProduct v u.
Proof. unfold dotProduct. ring. Qed.

Lemma angleTo_comm (u v : Vector3D) : angleTo u v = angleTo v u.
Proof.
  unfold angleTo. by rewrite (dotProduct_comm u v), (Rmult_comm (vlength u)).
Qed.

Lemma getEdgeVector_running (edge : BRepEdge) (c1 c2 : BRepCoEdge)
    (face1 : BRepFace) :
  getEdgeVector edge None
    (isOpposedToEdge
       (if Z.eqb (faceId (loopFace c1)) (faceId face1) then c1 else c2))
  = runningDirection edge c1 c2 face1.
Proof.
  unfold getEdgeVector, runningDirection.
  by destruct (isOpposedToEdge _).
Qed.

(** C2.  On an edge shared by two planar faces the classifier returns the
    interior angle of the specification: with normalAngle the angle between
    the two normals and cross = normal2 x normal1, it is
    2 PI - (PI - normalAngle) when the angle between cross and the running
    direction of the first face's co-edge exceeds PI / 2, and
    PI - normalAngle otherwise. *)
Theorem getAngleBetweenFaces_interior (edge : EdgeUse)
    (face1 face2 : BRepFace) (coEdge1 coEdge2 : BRepCoEdge) :
  u_faces edge = [Some face1; Some face2] →
  objectType face1 = PlaneSurface →
  objectType face2 = PlaneSurface →
  u_coEdges edge = [coEdge1; coEdge2] →
  getAngleBetweenFaces edge
  = Ok (interiorAngle (f_normal face1) (f_normal face2)
          (runningDirection (u_edge edge) coEdge1 coEdge2 face1)).
Proof.
  intros Hf Hp1 Hp2 Hc. unfold getAngleBetweenFaces, isPlane.
  rewrite Hf, Hp1, Hp2, Hc. simpl.
  rewrite getEdgeVector_running. unfold interiorAngle.
  rewrite (angleTo_comm (crossProduct _ _)).
  f_equal. destruct (Rgt_dec _ _); ring.
Qed.

(** The convex top/front edge of the unit cube. *)
Lemma getAngleBetweenFaces_interior_witness :
  getAngleBetweenFaces Cube.useA
  = Ok (interiorAngle (f_normal Cube.top) (f_normal Cube.front)
          (runningDirection Cube.eA Cube.coTop Cube.coFront Cube.top)).
Proof.
  apply (getAngleBetweenFaces_interior Cube.useA Cube.top Cube.front
           Cube.coTop Cube.coFront); reflexivity.
Defined.

(** The convention on a cube: its convex outer edge between the top and
    the front face is classified as 3 PI / 2. *)
Example getAngleBetweenFaces_cube_edge :
  getAngleBetweenFaces Cube.useA = Ok (3 * PI / 2).
Proof.
  unfold getAngleBetweenFaces. simpl.
  assert (Hn : angleTo (Vec 0 0 1) (Vec 0 (-1) 0) = PI / 2).
  { unfold angleTo, dotProduct. simpl.
    replace (0 * 0 + 0 * -1 + 1 * 0) with 0 by ring.
    unfold Rdiv. rewrite Rmult_0_l. apply acos_0. }
  assert (He : angleTo (getEdgeVector Cube.eA None false)
                 (crossProduct (Vec 0 (-1) 0) (Vec 0 0 1)) = PI).
  { unfold angleTo, vlength, getEdgeVector, crossProduct, dotProduct, vectorTo.
    simpl.
    replace ((1 - 0) * (1 - 0) + (0 - 0) * (0 - 0) + (1 - 1) * (1 - 1))
      with 1 by ring.
    replace ((-1 * 1 - 0 * 0) * (-1 * 1 - 0 * 0)
             + (0 * 0 - 0 * 1) * (0 * 0 - 0 * 1)
             + (0 * 0 - -1 * 0) * (0 * 0 - -1 * 0)) with 1 by ring.
    replace ((1 - 0) * (-1 * 1 - 0 * 0) + (0 - 0) * (0 * 0 - 0 * 1)
             + (1 - 1) * (0 * 0 - -1 * 0)) with (-1) by ring.
    rewrite sqrt_1.
    replace (-1 / (1 * 1)) with (Ropp 1) by field.
    rewrite acos_opp, acos_1. ring. }
  rewrite Hn, He. pose proof PI_RGT_0 as Hpi.
  destruct (Rgt_dec PI (PI / 2)) as [_|Hle]; [|lra].
  f_equal. field.
Qed.

(** C9.  When one of the two faces of the edge is not planar, the
    classifier returns the sentinel 0 without raising; a non-zero answer is
    only ever produced for two planar faces. *)
Theorem getAngleBetweenFaces_not_applicable (edge : EdgeUse)
    (face1 face2 : BRepFace) :
  u_faces edge = [Some face1; Some face2] →
  (objectType face1 ≠ PlaneSurface ∨ objectType face2 ≠ PlaneSurface →
     getAngleBetweenFaces edge = Ok 0)
  ∧ (∀ a, getAngleBetweenFaces edge = Ok a → a ≠ 0 →
       objectType face1 = PlaneSurface ∧ objectType face2 = PlaneSurface).
Proof.
  intros Hf. unfold getAngleBetweenFaces, isPlane. rewrite Hf.
  destruct (objectType face1), (objectType face2); simpl; split;
    try (intros [?|?]; done); try done;
    intros a [= <-] Ha; done.
Qed.

(** A cylindrical wall meeting the planar top of the cube. *)
Lemma getAngleBetweenFaces_not_applicable_witness :
  getAngleBetweenFaces Cube.useRound = Ok 0.
Proof.
  apply (getAngleBetweenFaces_not_applicable Cube.useRound
           Cube.top Cube.round).
  - reflexivity.
  - right. discriminate.
Defined.

(** ** Kernel facts used by the locator and the translator *)

Lemma isZero_true (v : Vector3D) :
  isZero v = true ↔ vx v = 0 ∧ vy v = 0 ∧ vz v = 0.
Proof.
  unfold isZero.
  destruct (Req_dec_T (vx v) 0), (Req_dec_T (vy v) 0), (Req_dec_T (vz v) 0);
    intuition; discriminate.
Qed.

Lemma isParallelTo_refl (n : Vector3D) : isParallelTo n n = true.
Proof.
  unfold isParallelTo. apply isZero_true. simpl. repeat split; ring.
Qed.

Lemma isParallelTo_cross (u v : Vector3D) :
  isParallelTo u v = true ↔
  vy u * vz v - vz u * vy v = 0
  ∧ vz u * vx v - vx u * vz v = 0
  ∧ vx u * vy v - vy u * vx v = 0.
Proof. unfold isParallelTo. by rewrite isZero_true. Qed.

(** The point where the line through [l0] along [n] meets the plane
    through [p] with normal [n]. *)
Lemma intersectWithLine_normal (p l0 : Point3D) (n : Vector3D) :
  dotProduct n n ≠ 0 →
  intersectWithLine (Plane_create p n) (InfiniteLine3D_create l0 n)
  = Some (translateBy l0
            (scaleBy n (dotProduct (vectorTo l0 p) n / dotProduct n n))).
Proof.
  intros Hn. unfold intersectWithLine. simpl.
  by destruct (Req_dec_T (dotProduct n n) 0).
Qed.

Lemma intersectWithLine_self (p : Point3D) (n : Vector3D) :
  dotProduct n n ≠ 0 →
  intersectWithLine (Plane_create p n) (InfiniteLine3D_create p n) = Some p.
Proof.
  intros Hn. rewrite intersectWithLine_normal by done.
  destruct p as [x y z], n as [a b c].
  unfold translateBy, scaleBy, vectorTo, dotProduct in *.
  simpl in *. f_equal. f_equal; field; done.
Qed.

(** The signed distance the locator attaches to a plane through [q]. *)
Lemma distance_along_normal (p q : Point3D) (n : Vector3D) :
  dotProduct n n ≠ 0 →
  dotProduct
    (vectorTo p
       (translateBy p
          (scaleBy n (dotProduct (vectorTo p q) n / dotProduct n n)))) n
  = dotProduct (vectorTo p q) n.
Proof.
  intros Hn. destruct p, q, n. unfold dotProduct in *. simpl in *.
  field. done.
Qed.

Lemma vectorTo_along_normal (p q : Point3D) (n : Vector3D) :
  dotProduct n n = 1 →
  vectorTo p
    (translateBy p (scaleBy n (dotProduct (vectorTo p q) n / dotProduct n n)))
  = scaleBy n (dotProduct (vectorTo p q) n).
Proof.
  intros Hn. rewrite Hn. destruct p, q, n.
  unfold vectorTo, translateBy, scaleBy, dotProduct. simpl. f_equal; field.
Qed.

(** ** Python's stable sort and its last element *)

Lemma elem_of_insertByKey {A} (x y : A * R) (l : list (A * R)) :
  y ∈ insertByKey x l ↔ y = x ∨ y ∈ l.
Proof.
  induction l as [|z l IH]; simpl.
  - rewrite list_elem_of_singleton, elem_of_nil. tauto.
  - destruct (Rle_dec (snd x) (snd z)).
    + by rewrite elem_of_cons.
    + rewrite !elem_of_cons, IH. tauto.
Qed.

Lemma elem_of_sorted {A} (y : A * R) (l : list (A * R)) :
  y ∈ sorted l ↔ y ∈ l.
Proof.
  induction l as [|x l IH]; simpl; [done|].
  by rewrite elem_of_insertByKey, elem_of_cons, IH.
Qed.

Lemma last_insertByKey {A} (x : A * R) (l : list (A * R)) :
  (last (insertByKey x l) = Some x ∧ ∀ y, y ∈ l → snd y < snd x)
  ∨ (last (insertByKey x l) = last l ∧ ∃ y, y ∈ l ∧ snd x <= snd y).
Proof.
  induction l as [|z l IH]; simpl.
  - left. split; [done|]. intros y Hy. by apply elem_of_nil in Hy.
  - destruct (Rle_dec (snd x) (snd z)) as [Hle|Hgt].
    + right. split; [done|]. exists z. split; [left|done].
    + destruct IH as [[Hl Hall]|[Hl (y & Hy & Hxy)]].
      * left. rewrite last_cons, Hl. split; [done|].
        intros y [->|Hy]%elem_of_cons; [lra|by apply Hall].
      * right. rewrite !last_cons, Hl. split; [done|].
        exists y. split; [by right|done].
Qed.

(** The last element of the sorted list has the largest key, and among
    equal keys it is the one that came last in the input. *)
Lemma last_sorted {A} (l : list (A * R)) :
  l ≠ [] →
  ∃ top l1 l2,
    last (sorted l) = Some top
    ∧ l = l1 ++ top :: l2
    ∧ (∀ y, y ∈ l → snd y <= snd top)
    ∧ (∀ y, y ∈ l2 → snd y < snd top).
Proof.
  induction l as [|x l IH]; [done|]. intros _. simpl.
  destruct (last_insertByKey x (sorted l)) as [[Hl Hall]|[Hl (y & Hy & Hxy)]].
  - exists x, [], l. rewrite Hl. split_and!; [done|done| |].
    + intros y [->|Hy]%elem_of_cons; [lra|].
      apply Rlt_le, Hall. by apply elem_of_sorted.
    + intros y Hy. apply Hall. by apply elem_of_sorted.
  - apply (proj1 (elem_of_sorted _ _)) in Hy.
    destruct IH as (top & l1 & l2 & Ht & -> & Hmax & Hties).
    { intros ->. by apply elem_of_nil in Hy. }
    exists top, (x :: l1), l2. rewrite Hl, Ht. split_and!; [done|done| |done].
    intros z [->|Hz]%elem_of_cons; [|by apply Hmax].
    specialize (Hmax y Hy). lra.
Qed.

(** ** Top-face locator *)

Lemma firstVertexPoint_ok (face : BRepFace) :
  f_vertices face ≠ [] → firstVertexPoint face = Ok (referencePoint face).
Proof.
  unfold firstVertexPoint, referencePoint. by destruct (f_vertices face).
Qed.

Lemma parallelFaceList_eq (sel : BRepFace) (faces : list BRepFace) :
  let n := getFaceNormal sel in
  let p := referencePoint sel in
  dotProduct n n ≠ 0 →
  (∀ f, f ∈ faces → parallelTo sel f = true → f_vertices f ≠ []) →
  parallelFaceList n (InfiniteLine3D_create p n) (Some p) faces
  = Ok (map (fun f => (f, signedDistance sel f))
            (List.filter (parallelTo sel) faces)).
Proof.
  intros n p Hn. induction faces as [|f faces IH]; intros Hv; [done|].
  simpl.
  assert (IH' := IH (fun g Hg => Hv g (list_elem_of_further _ _ _ Hg))).
  change (isParallelTo n (getFaceNormal f)) with (parallelTo sel f).
  destruct (parallelTo sel f) eqn:Hpar; simpl; [|done].
  rewrite firstVertexPoint_ok by (apply Hv; [left|done]).
  simpl. rewrite intersectWithLine_normal by done. simpl.
  rewrite IH'. simpl. unfold signedDistance. fold n p.
  by rewrite distance_along_normal.
Qed.

Lemma map_filter_split {A B} (h : A → B) (P : A → bool) (fs : list A)
    (m1 m2 : list B) (y : B) :
  map h (List.filter P fs) = m1 ++ y :: m2 →
  ∃ l1 f l2, fs = l1 ++ f :: l2 ∧ P f = true ∧ h f = y
             ∧ map h (List.filter P l2) = m2.
Proof.
  revert m1. induction fs as [|a fs IH]; intros m1 H; simpl in H.
  - by destruct m1.
  - destruct (P a) eqn:Pa.
    + destruct m1 as [|z m1]; simpl in H; injection H as H1 H2.
      * by exists [], a, fs.
      * destruct (IH _ H2) as (l1 & f & l2 & -> & ? & ? & ?).
        by exists (a :: l1), f, l2.
    + destruct (IH _ H) as (l1 & f & l2 & -> & ? & ? & ?).
      by exists (a :: l1), f, l2.
Qed.

(** What [getTopFace] returns on a well-formed body: the parallel face of
    largest signed distance, the last such face in iteration order. *)
Lemma getTopFace_char (body : BRepBody) (sel : BRepFace) :
  sel ∈ b_faces body →
  dotProduct (getFaceNormal sel) (getFaceNormal sel) ≠ 0 →
  (∀ f, f ∈ b_faces body → parallelTo sel f = true → f_vertices f ≠ []) →
  ∃ (top : BRepFace) (i : nat),
    getTopFace body sel = Ok (top, nativePointOnFace top)
    ∧ b_faces body !! i = Some top
    ∧ parallelTo sel top = true
    ∧ ∀ (j : nat) (f : BRepFace),
        b_faces body !! j = Some f → parallelTo sel f = true →
        signedDistance sel f <= signedDistance sel top
        ∧ ((i < j)%nat → signedDistance sel f < signedDistance sel top).
Proof.
  intros Hsel Hn Hv.
  assert (Hself : parallelTo sel sel = true) by apply isParallelTo_refl.
  unfold getTopFace.
  rewrite firstVertexPoint_ok by (by apply Hv). simpl.
  rewrite intersectWithLine_self by done.
  rewrite parallelFaceList_eq by done. simpl.
  set (l := map _ _).
  destruct (last_sorted l) as (top & m1 & m2 & Hl & Hsplit & Hmax & Hties).
  { subst l. intros Hnil. apply map_eq_nil in Hnil.
    assert (Hin : In sel (List.filter (parallelTo sel) (b_faces body))).
    { apply filter_In. split; [by apply list_elem_of_In|done]. }
    by rewrite Hnil in Hin. }
  rewrite Hl. subst l.
  destruct (map_filter_split _ _ _ _ _ _ Hsplit)
    as (l1 & f & l2 & Hb & Hpf & <- & Hm2).
  simpl. exists f, (length l1). split; [done|].
  split; [by rewrite Hb, list_lookup_middle|].
  split; [done|].
  intros j g Hj Hg. split.
  - apply (Hmax (g, signedDistance sel g)).
    rewrite Hsplit. rewrite <- Hsplit. apply list_elem_of_In, in_map_iff.
    exists g. split; [done|]. apply filter_In.
    split; [|done]. apply list_elem_of_In. by eapply list_elem_of_lookup_2.
  - intros Hij. apply (Hties (g, signedDistance sel g)).
    rewrite <- Hm2. apply list_elem_of_In, in_map_iff.
    exists g. split; [done|]. apply filter_In. split; [|done].
    rewrite Hb in Hj. rewrite lookup_app_r in Hj by lia.
    destruct (j - length l1)%nat as [|k] eqn:Hk; [lia|]. simpl in Hj.
    apply list_elem_of_In. by eapply list_elem_of_lookup_2.
Qed.

Ltac geometry_simpl :=
  unfold signedDistance, parallelTo, referencePoint, getFaceNormal,
    dotProduct, vectorTo, crossProduct in *;
  simpl in *.

Ltac not_parallel H :=
  apply isParallelTo_cross in H; simpl in H; lra.

(** On a prism whose reference face is the bottom, the face furthest along
    the bottom's outward normal is the bottom itself. *)
Lemma getTopFace_prism_bottom (h : R) :
  0 < h →
  getTopFace (Prism.body h) (Prism.bottom)
  = Ok (Prism.bottom, pointOnFace (Prism.bottom)).
Proof.
  intros Hh.
  destruct (getTopFace_char (Prism.body h) (Prism.bottom))
    as (top & i & Hget & Hi & Hpar & Hmax).
  { left. }
  { geometry_simpl. lra. }
  { intros f Hf _. simpl in Hf.
    repeat (apply elem_of_cons in Hf as [->|Hf]; [done|]).
    by apply elem_of_nil in Hf. }
  rewrite Hget.
  destruct (Hmax 0%nat (Prism.bottom) eq_refl (isParallelTo_refl _))
    as [Hle _].
  destruct i as [|[|[|[|[|[|i]]]]]]; simpl in Hi; try discriminate;
    injection Hi as <-; try done; unfold parallelTo in Hpar;
    try (not_parallel Hpar).
  geometry_simpl. lra.
Qed.

(** With two coplanar rims, the locator returns the later one. *)
Lemma getTopFace_pocket_last :
  getTopFace Pocket.body Pocket.floor
  = Ok (Pocket.rimB, pointOnFace Pocket.rimB).
Proof.
  destruct (getTopFace_char Pocket.body Pocket.floor)
    as (top & i & Hget & Hi & Hpar & Hmax).
  { left. }
  { geometry_simpl. lra. }
  { intros f Hf _. simpl in Hf.
    repeat (apply elem_of_cons in Hf as [->|Hf]; [done|]).
    by apply elem_of_nil in Hf. }
  rewrite Hget.
  assert (HA : parallelTo Pocket.floor Pocket.rimA = true).
  { apply isParallelTo_cross. simpl. lra. }
  assert (HB : parallelTo Pocket.floor Pocket.rimB = true).
  { apply isParallelTo_cross. simpl. lra. }
  destruct (Hmax 1%nat Pocket.rimA eq_refl HA) as [HleA _].
  destruct (Hmax 3%nat Pocket.rimB eq_refl HB) as [_ HltB].
  destruct i as [|[|[|[|[|i]]]]]; simpl in Hi; try discriminate;
    injection Hi as <-; try done.
  - geometry_simpl. lra.
  - assert (1 < 3)%nat as Hlt by lia. apply HltB in Hlt.
    geometry_simpl. lra.
  - unfold parallelTo in Hpar. not_parallel Hpar.
  - geometry_simpl. lra.
Qed.

(** C5 (as amended).  Among the body's faces parallel to the reference
    face, [getTopFace] returns the one of largest signed distance along the
    reference normal, ties going to the last such face in the body's
    iteration order; on a rectangular prism whose reference face is the
    bottom, the returned face is the bottom face itself. *)
Theorem getTopFace_furthest_last_found :
  (∀ (body : BRepBody) (selectedFace : BRepFace),
     selectedFace ∈ b_faces body →
     dotProduct (getFaceNormal selectedFace) (getFaceNormal selectedFace) ≠ 0 →
     (∀ f, f ∈ b_faces body → parallelTo selectedFace f = true →
           f_vertices f ≠ []) →
     ∃ (top : BRepFace) (i : nat),
       getTopFace body selectedFace = Ok (top, nativePointOnFace top)
       ∧ b_faces body !! i = Some top
       ∧ parallelTo selectedFace top = true
       ∧ ∀ (j : nat) (f : BRepFace),
           b_faces body !! j = Some f → parallelTo selectedFace f = true →
           signedDistance selectedFace f <= signedDistance selectedFace top
           ∧ ((i < j)%nat →
              signedDistance selectedFace f < signedDistance selectedFace top))
  ∧ (∀ h : R, 0 < h →
       getTopFace (Prism.body h) (Prism.bottom)
       = Ok (Prism.bottom, pointOnFace (Prism.bottom))).
Proof.
  split.
  - apply getTopFace_char.
  - apply getTopFace_prism_bottom.
Qed.

(** The pocket floor as reference face, and a prism of height 3. *)
Lemma getTopFace_furthest_last_found_witness :
  (∃ (top : BRepFace) (i : nat),
     getTopFace Pocket.body Pocket.floor = Ok (top, nativePointOnFace top)
     ∧ b_faces Pocket.body !! i = Some top
     ∧ parallelTo Pocket.floor top = true
     ∧ ∀ (j : nat) (f : BRepFace),
         b_faces Pocket.body !! j = Some f →
         parallelTo Pocket.floor f = true →
         signedDistance Pocket.floor f <= signedDistance Pocket.floor top
         ∧ ((i < j)%nat →
            signedDistance Pocket.floor f < signedDistance Pocket.floor top))
  ∧ getTopFace (Prism.body 3) (Prism.bottom)
    = Ok (Prism.bottom, pointOnFace (Prism.bottom)).
Proof.
  destruct getTopFace_furthest_last_found as [Hgen Hprism]. split.
  - apply (Hgen Pocket.body Pocket.floor).
    + left.
    + geometry_simpl. lra.
    + intros f Hf _. simpl in Hf.
      repeat (apply elem_of_cons in Hf as [->|Hf]; [done|]).
      by apply elem_of_nil in Hf.
  - apply (Hprism 3). lra.
Defined.

(** C5 (counterexample).  Two faces tie for the largest signed distance and
    the locator returns the one found last, not first; and on a prism with
    the bottom as reference face it returns the bottom, not the top. *)
Lemma getTopFace_not_first_found_nor_prism_top :
  (getTopFace Pocket.body Pocket.floor
     = Ok (Pocket.rimB, pointOnFace Pocket.rimB)
   ∧ b_faces Pocket.body !! 1%nat = Some Pocket.rimA
   ∧ b_faces Pocket.body !! 3%nat = Some Pocket.rimB
   ∧ parallelTo Pocket.floor Pocket.rimA = true
   ∧ signedDistance Pocket.floor Pocket.rimA
     = signedDistance Pocket.floor Pocket.rimB
   ∧ Pocket.rimA ≠ Pocket.rimB)
  ∧ (getTopFace (Prism.body 3) (Prism.bottom)
       = Ok (Prism.bottom, pointOnFace (Prism.bottom))
     ∧ Prism.bottom ≠ Prism.top 3).
Proof.
  split; split_and!.
  - apply getTopFace_pocket_last.
  - reflexivity.
  - reflexivity.
  - apply isParallelTo_cross. simpl. lra.
  - geometry_simpl. lra.
  - discriminate.
  - apply getTopFace_prism_bottom. lra.
  - discriminate.
Qed.

(** ** Plane translator *)

Lemma getTranslateVectorBetweenFaces_value (fromFace toFace : BRepFace) :
  let n := getFaceNormal fromFace in
  f_vertices fromFace ≠ [] →
  f_vertices toFace ≠ [] →
  dotProduct n n = 1 →
  getTranslateVectorBetweenFaces fromFace toFace
  = Ok (Some (scaleBy n
                (dotProduct
                   (vectorTo (referencePoint fromFace) (referencePoint toFace))
                   n))).
Proof.
  intros n Hf Ht Hn. unfold getTranslateVectorBetweenFaces. fold n.
  assert (Hn0 : dotProduct n n ≠ 0) by lra.
  rewrite isParallelTo_refl. simpl.
  rewrite !firstVertexPoint_ok by done. simpl.
  rewrite intersectWithLine_self, intersectWithLine_normal by done. simpl.
  by rewrite vectorTo_along_normal.
Qed.

(** The parallelism guard compares the normal of [fromFace] with itself,
    so it never rejects a pair of faces. *)
Lemma getTranslateVectorBetweenFaces_never_False
    (fromFace toFace : BRepFace) :
  getTranslateVectorBetweenFaces fromFace toFace ≠ Ok None.
Proof.
  unfold getTranslateVectorBetweenFaces. rewrite isParallelTo_refl. simpl.
  destruct (firstVertexPoint fromFace); simpl; [|done].
  destruct (firstVertexPoint toFace); simpl; [|done].
  destruct (vectorToOpt _ _); simpl; done.
Qed.

(** Parallel unit normals agree up to sign. *)
Lemma parallel_unit_normals (u v : Vector3D) :
  dotProduct u u = 1 → dotProduct v v = 1 → isParallelTo u v = true →
  ∃ s : R, s * s = 1 ∧ v = scaleBy u s.
Proof.
  intros Hu Hv Hpar. apply isParallelTo_cross in Hpar as (H1 & H2 & H3).
  destruct u as [a b c], v as [x y z]. unfold dotProduct in *. simpl in *.
  set (s := a * x + b * y + c * z).
  assert (Hx : x = s * a).
  { transitivity (x * (a * a + b * b + c * c)); [rewrite Hu; ring|].
    transitivity (s * a - b * (a * y - b * x) + c * (c * x - a * z));
      [unfold s; ring | rewrite H3, H2; ring]. }
  assert (Hy : y = s * b).
  { transitivity (y * (a * a + b * b + c * c)); [rewrite Hu; ring|].
    transitivity (s * b + a * (a * y - b * x) - c * (b * z - c * y));
      [unfold s; ring | rewrite H3, H1; ring]. }
  assert (Hz : z = s * c).
  { transitivity (z * (a * a + b * b + c * c)); [rewrite Hu; ring|].
    transitivity (s * c - a * (c * x - a * z) + b * (b * z - c * y));
      [unfold s; ring | rewrite H2, H1; ring]. }
  exists s. split.
  - transitivity (s * s * (a * a + b * b + c * c)); [rewrite Hu; ring|].
    rewrite <- Hv. rewrite Hx, Hy, Hz. ring.
  - unfold scaleBy. simpl. by rewrite <- Hx, <- Hy, <- Hz.
Qed.

(** C6 (evaluation of the code).  The translator never answers [False]:
    given the bottom of a prism and one of its side walls, which are not
    parallel, it still returns a translation vector. *)
Theorem getTranslateVectorBetweenFaces_accepts_nonparallel :
  (∀ fromFace toFace : BRepFace,
     getTranslateVectorBetweenFaces fromFace toFace ≠ Ok None)
  ∧ parallelTo Prism.bottom (Prism.right 3) = false
  ∧ getTranslateVectorBetweenFaces Prism.bottom (Prism.right 3)
    = Ok (Some (Vec 0 0 3)).
Proof.
  split_and!.
  - apply getTranslateVectorBetweenFaces_never_False.
  - destruct (parallelTo _ _) eqn:Hpar; [|done].
    unfold parallelTo in Hpar. not_parallel Hpar.
  - rewrite getTranslateVectorBetweenFaces_value.
    + geometry_simpl. unfold scaleBy. simpl. do 2 f_equal. f_equal; lra.
    + done.
    + done.
    + geometry_simpl. lra.
Qed.

(** C7.  For two parallel planar faces with unit normals the translation
    from A to B and the translation from B to A are exact inverses: applied
    one after the other they return every point to where it was. *)
Theorem getTranslateVectorBetweenFaces_round_trip
    (faceA faceB : BRepFace) (p : Point3D) :
  f_vertices faceA ≠ [] →
  f_vertices faceB ≠ [] →
  dotProduct (getFaceNormal faceA) (getFaceNormal faceA) = 1 →
  dotProduct (getFaceNormal faceB) (getFaceNormal faceB) = 1 →
  parallelTo faceA faceB = true →
  ∃ vAB vBA : Vector3D,
    getTranslateVectorBetweenFaces faceA faceB = Ok (Some vAB)
    ∧ getTranslateVectorBetweenFaces faceB faceA = Ok (Some vBA)
    ∧ add vAB vBA = Vec 0 0 0
    ∧ translateBy (translateBy p vAB) vBA = p
    ∧ distanceTo (translateBy (translateBy p vAB) vBA) p <= 1 / 1000000.
Proof.
  intros HvA HvB HnA HnB Hpar.
  rewrite !getTranslateVectorBetweenFaces_value by done.
  eexists _, _. split; [done|]. split; [done|].
  destruct (parallel_unit_normals _ _ HnA HnB Hpar) as (s & Hs & Hn).
  rewrite Hn.
  destruct (getFaceNormal faceA) as [a b c].
  destruct (referencePoint faceA) as [xa ya za].
  destruct (referencePoint faceB) as [xb yb zb].
  unfold dotProduct in HnA. simpl in HnA.
  assert (Hadd :
    add (scaleBy (Vec a b c)
           (dotProduct (vectorTo (Pt xa ya za) (Pt xb yb zb)) (Vec a b c)))
        (scaleBy (scaleBy (Vec a b c) s)
           (dotProduct (vectorTo (Pt xb yb zb) (Pt xa ya za))
              (scaleBy (Vec a b c) s)))
    = Vec 0 0 0).
  { unfold add, scaleBy, dotProduct, vectorTo. simpl.
    f_equal.
    - transitivity
        (((xb - xa) * a + (yb - ya) * b + (zb - za) * c) * a * (1 - s * s));
        [ring | rewrite Hs; ring].
    - transitivity
        (((xb - xa) * a + (yb - ya) * b + (zb - za) * c) * b * (1 - s * s));
        [ring | rewrite Hs; ring].
    - transitivity
        (((xb - xa) * a + (yb - ya) * b + (zb - za) * c) * c * (1 - s * s));
        [ring | rewrite Hs; ring]. }
  assert (Hback : ∀ u v, add u v = Vec 0 0 0 →
            translateBy (translateBy p u) v = p).
  { intros u v Huv. destruct p, u, v. unfold add, translateBy in *.
    simpl in *. injection Huv as H1 H2 H3. f_equal; lra. }
  split; [exact Hadd|]. split; [by apply Hback|].
  rewrite Hback by exact Hadd.
  unfold distanceTo, vlength, dotProduct, vectorTo. simpl.
  replace ((px p - px p) * (px p - px p) + (py p - py p) * (py p - py p)
           + (pz p - pz p) * (pz p - pz p)) with 0 by ring.
  rewrite sqrt_0. lra.
Qed.

(** The floor of the pocket and the rim above it. *)
Lemma getTranslateVectorBetweenFaces_round_trip_witness :
  ∃ vAB vBA : Vector3D,
    getTranslateVectorBetweenFaces Pocket.floor Pocket.rimA = Ok (Some vAB)
    ∧ getTranslateVectorBetweenFaces Pocket.rimA Pocket.floor = Ok (Some vBA)
    ∧ add vAB vBA = Vec 0 0 0
    ∧ translateBy (translateBy (Pt 1 1 0) vAB) vBA = Pt 1 1 0
    ∧ distanceTo (translateBy (translateBy (Pt 1 1 0) vAB) vBA) (Pt 1 1 0)
      <= 1 / 1000000.
Proof.
  apply (getTranslateVectorBetweenFaces_round_trip
           Pocket.floor Pocket.rimA (Pt 1 1 0)).
  - done.
  - done.
  - geometry_simpl. lra.
  - geometry_simpl. lra.
  - apply isParallelTo_cross. simpl. lra.
Defined.

(** ** Placement engine *)

Lemma isMortise_not_minimal (param : DbParams) :
  isMortise param = true → isMinimal param = false.
Proof.
  unfold isMortise, isMinimal. intros H%String.eqb_eq. by rewrite H.
Qed.

Lemma sqrt2_pos : 0 < sqrt 2.
Proof. apply sqrt_lt_R0. lra. Qed.

Lemma dbHoleOffset_pos (param : DbParams) :
  let up := onExecute_userParams param in
  0 < centreDistance param (dbRadius up) → 0 < dbHoleOffset up.
Proof.
  unfold centreDistance, onExecute_userParams. simpl.
  destruct (isMinimal param); [|destruct (isMortise param)]; intros H.
  - unfold Rdiv. rewrite Rmult_assoc, (Rmult_comm (/ sqrt 2)), <- Rmult_assoc.
    apply Rmult_lt_0_compat; [done|]. apply Rinv_0_lt_compat, sqrt2_pos.
  - lra.
  - apply Rmult_lt_0_compat; [lra|]. apply Rinv_0_lt_compat, sqrt2_pos.
Qed.

Lemma dbHoleOffset_mortise (param : DbParams) :
  let up := onExecute_userParams param in
  isMortise param = true →
  dbHoleOffset up = centreDistance param (dbRadius up).
Proof.
  intros up Hm. unfold up, centreDistance, onExecute_userParams. simpl.
  rewrite (isMortise_not_minimal _ Hm), Hm. ring.
Qed.

(** C3 (as amended).  With a positive effective distance, both edge
    clearances handed to the kernel are non-negative; outside Mortise style they are equal; in
    Mortise style one is zero and the other is the effective distance, the
    zero going to the longer corner edge under the Long side and to the
    shorter one under the Short side. *)
Theorem clearances_by_style (param : DbParams) (longSide : bool)
    (startVertex : BRepVertex) (edge1 edge2 : BRepEdge)
    (selectedEdgeFaces : BRepFace * BRepFace) (transformVector : Vector3D) :
  let up := onExecute_userParams param in
  let effectiveDistance := centreDistance param (dbRadius up) in
  let pos := createParametricDogbones_edge param longSide (dbRadius up)
               startVertex edge1 edge2 selectedEdgeFaces transformVector in
  let clearance1 := valueOf up (edge1OffsetByStr pos) in
  let clearance2 := valueOf up (edge2OffsetByStr pos) in
  0 < effectiveDistance →
  0 <= clearance1 ∧ 0 <= clearance2
  ∧ (isMortise param = false → clearance1 = clearance2)
  ∧ (isMortise param = true →
       ((clearance1 = 0 ∧ clearance2 = effectiveDistance)
        ∨ (clearance2 = 0 ∧ clearance1 = effectiveDistance))
       ∧ ¬ (clearance1 = 0 ∧ clearance2 = 0)
       ∧ (longSide = true → e_length edge1 > e_length edge2 →
            clearance1 = 0 ∧ clearance2 = effectiveDistance)
       ∧ (longSide = true → e_length edge2 > e_length edge1 →
            clearance2 = 0 ∧ clearance1 = effectiveDistance)
       ∧ (longSide = false → e_length edge1 > e_length edge2 →
            clearance2 = 0 ∧ clearance1 = effectiveDistance)
       ∧ (longSide = false → e_length edge2 > e_length edge1 →
            clearance1 = 0 ∧ clearance2 = effectiveDistance)).
Proof.
  intros up eff pos c1 c2 Heff.
  pose proof (dbHoleOffset_pos param Heff) as Hpos. fold up in Hpos.
  assert (Hstr : valueOf up (createByString "dbHoleOffset") = dbHoleOffset up)
    by reflexivity.
  unfold c1, c2, pos, createParametricDogbones_edge.
  destruct (isMortise param) eqn:Hm.
  - pose proof (dbHoleOffset_mortise param Hm) as Hoff.
    fold up eff in Hoff.
    destruct longSide, (Rgt_dec (e_length edge1) (e_length edge2)) as [Hgt|Hngt];
      cbn [edge1OffsetByStr edge2OffsetByStr]; rewrite ?Hstr;
      cbn [valueOf]; rewrite ?Hoff;
      (split_and!; try done; try lra; try (intros; lra);
       try (intros _; split_and!; try done; try lra;
            try (by left); try (by right);
            try (intros; split; lra); try (intros; lra))).
  - cbn [edge1OffsetByStr edge2OffsetByStr]. rewrite Hstr.
    split_and!; try done; try lra.
Qed.

(** A 10 by 4 corner, Mortise on the long side: the long edge gets zero
    clearance, the short one the effective distance. *)
Lemma clearances_by_style_witness :
  let up := onExecute_userParams Corner.mortiseParam in
  let pos := createParametricDogbones_edge Corner.mortiseParam true
               (dbRadius up) Corner.corner Corner.eX Corner.eY
               (Corner.wallX, Corner.wallY) (Vec 0 0 0) in
  valueOf up (edge1OffsetByStr pos) = 0
  ∧ valueOf up (edge2OffsetByStr pos)
    = centreDistance Corner.mortiseParam (dbRadius up).
Proof.
  intros up pos.
  destruct (clearances_by_style Corner.mortiseParam true Corner.corner
              Corner.eX Corner.eY (Corner.wallX, Corner.wallY) (Vec 0 0 0))
    as (_ & _ & _ & Hm).
  { unfold centreDistance. simpl. lra. }
  destruct (Hm eq_refl) as (_ & _ & Hlong & _).
  apply Hlong; [reflexivity | simpl; lra].
Defined.

(** C3 (counterexample).  [onValidate] checks the tool diameter only, so a
    negative diameter offset reaches the placement: with diameter 1/4 and
    offset -1, Normal style, both clearances are negative; with diameter 1
    and offset -1, Mortise style, both clearances are zero. *)
Lemma clearances_negative_or_both_zero :
  (onValidate [mkInput "faceSelect" 1 0; mkInput "toolDia" 0 (1/4)] true
     = true
   ∧ let param := mkParams (1/4) (-1) "Normal Dogbone" 10 false true in
     let up := onExecute_userParams param in
     let pos := createParametricDogbones_edge param true (dbRadius up)
                  Corner.corner Corner.eX Corner.eY
                  (Corner.wallX, Corner.wallY) (Vec 0 0 0) in
     valueOf up (edge1OffsetByStr pos) < 0
     ∧ valueOf up (edge2OffsetByStr pos) < 0)
  ∧ (onValidate [mkInput "faceSelect" 1 0; mkInput "toolDia" 0 1] true = true
     ∧ let param := mkParams 1 (-1) "Mortise Dogbone" 10 false true in
       let up := onExecute_userParams param in
       let pos := createParametricDogbones_edge param true (dbRadius up)
                    Corner.corner Corner.eX Corner.eY
                    (Corner.wallX, Corner.wallY) (Vec 0 0 0) in
       valueOf up (edge1OffsetByStr pos) = 0
       ∧ valueOf up (edge2OffsetByStr pos) = 0).
Proof.
  pose proof sqrt2_pos as Hs.
  assert (Ht : 0 < / sqrt 2) by (by apply Rinv_0_lt_compat).
  split; split.
  - unfold onValidate. simpl. destruct (Rle_dec (1 / 4) 0); [lra|done].
  - simpl. unfold Rdiv. split; nra.
  - unfold onValidate. simpl. destruct (Rle_dec 1 0); [lra|done].
  - unfold createParametricDogbones_edge. simpl.
    destruct (Rgt_dec 10 4) as [_|Hn]; [|lra]. simpl. split; lra.
Qed.

(** C10.  With corner edges of equal length, Mortise placement is decided
    by the strict comparison alone: on the long side the second edge gets
    the zero clearance and gives the direction, exactly as when it is
    strictly longer; on the short side the first edge does.  The static
    routine picks its direction alike. *)
Theorem mortise_equal_lengths (param : DbParams) (radius : R)
    (startVertex : BRepVertex) (edge1 edge2 : BRepEdge)
    (selectedEdgeFaces : BRepFace * BRepFace) (selectedEdge : DbEdge)
    (transformVector : Vector3D) :
  let parametricPos longSide :=
    createParametricDogbones_edge param longSide radius startVertex
      edge1 edge2 selectedEdgeFaces transformVector in
  let staticDir longSide :=
    snd (createStaticDogbones_edge param longSide radius selectedEdge
           edge1 edge2 transformVector) in
  isMortise param = true →
  (e_length edge1 = e_length edge2 ∨ e_length edge2 > e_length edge1 →
     edge2OffsetByStr (parametricPos true) = createByReal 0
     ∧ edge1OffsetByStr (parametricPos true) = createByString "dbHoleOffset"
     ∧ dirVect (parametricPos true)
       = correctedEdgeVector edge2 (geometry startVertex)
     ∧ staticDir true
       = scaleBy (normalize
                    (correctedEdgeVector edge2 (fst (endPoints selectedEdge))))
                 (centreDistance param radius))
  ∧ (e_length edge1 = e_length edge2 →
     edge1OffsetByStr (parametricPos false) = createByReal 0
     ∧ edge2OffsetByStr (parametricPos false) = createByString "dbHoleOffset"
     ∧ dirVect (parametricPos false)
       = correctedEdgeVector edge1 (geometry startVertex)
     ∧ staticDir false
       = scaleBy (normalize
                    (correctedEdgeVector edge1 (fst (endPoints selectedEdge))))
                 (centreDistance param radius)).
Proof.
  intros pos dir Hm. unfold pos, dir, createParametricDogbones_edge,
    createStaticDogbones_edge.
  rewrite Hm. destruct (endPoints selectedEdge) as [sv ev].
  split; intros Hlen;
    (destruct (Rgt_dec (e_length edge1) (e_length edge2)) as [Hgt|_];
     [lra|done]).
Qed.

(** Two edges of length 10 meeting at the corner. *)
Lemma mortise_equal_lengths_witness :
  edge2OffsetByStr
    (createParametricDogbones_edge Corner.mortiseParam true 1 Corner.corner
       Corner.eX Corner.eY10 (Corner.wallX, Corner.wallY) (Vec 0 0 0))
  = createByReal 0
  ∧ edge1OffsetByStr
      (createParametricDogbones_edge Corner.mortiseParam false 1 Corner.corner
         Corner.eX Corner.eY10 (Corner.wallX, Corner.wallY) (Vec 0 0 0))
    = createByReal 0.
Proof.
  destruct (mortise_equal_lengths Corner.mortiseParam 1 Corner.corner
              Corner.eX Corner.eY10 (Corner.wallX, Corner.wallY)
              Corner.dbEdge (Vec 0 0 0) eq_refl) as [Hlong Hshort].
  split.
  - apply Hlong. left. reflexivity.
  - apply Hshort. reflexivity.
Defined.

(** C8.  Minimal style with a percentage of zero places the hole exactly
    as Normal style does, for the same corner and tool: the same centre
    point and the same clearances, in the parametric and in the static
    routine. *)
Theorem minimal_zero_is_normal (dia off anyPercent : R) (top par : bool)
    (longSide : bool) (startVertex : BRepVertex) (edge1 edge2 : BRepEdge)
    (selectedEdgeFaces : BRepFace * BRepFace) (selectedEdge : DbEdge)
    (transformVector : Vector3D) :
  let minimal := mkParams dia off "Minimal Dogbone" 0 top par in
  let normal := mkParams dia off "Normal Dogbone" anyPercent top par in
  let upM := onExecute_userParams minimal in
  let upN := onExecute_userParams normal in
  let posM := createParametricDogbones_edge minimal longSide (dbRadius upM)
                startVertex edge1 edge2 selectedEdgeFaces transformVector in
  let posN := createParametricDogbones_edge normal longSide (dbRadius upN)
                startVertex edge1 edge2 selectedEdgeFaces transformVector in
  centreDistance minimal (dbRadius upM) = dbRadius upM
  ∧ centreDistance normal (dbRadius upN) = dbRadius upM
  ∧ centrePoint posM = centrePoint posN
  ∧ valueOf upM (edge1OffsetByStr posM) = valueOf upN (edge1OffsetByStr posN)
  ∧ valueOf upM (edge2OffsetByStr posM) = valueOf upN (edge2OffsetByStr posN)
  ∧ staticOffset minimal = staticOffset normal
  ∧ createStaticDogbones_edge minimal longSide (staticRadius minimal)
      selectedEdge edge1 edge2 transformVector
    = createStaticDogbones_edge normal longSide (staticRadius normal)
        selectedEdge edge1 edge2 transformVector.
Proof.
  intros minimal normal upM upN posM posN.
  assert (Hcd : ∀ r, centreDistance minimal r = centreDistance normal r).
  { intros r. unfold centreDistance. simpl. field. }
  split_and!.
  - unfold centreDistance. simpl. field.
  - unfold centreDistance. simpl. field.
  - reflexivity.
  - simpl. field. apply Rgt_not_eq, sqrt2_pos.
  - simpl. field. apply Rgt_not_eq, sqrt2_pos.
  - unfold staticOffset, staticRadius. simpl. field. apply Rgt_not_eq, sqrt2_pos.
  - unfold createStaticDogbones_edge. rewrite Hcd. reflexivity.
Qed.

Lemma normal_sum_length (n1 n2 : Vector3D) :
  dotProduct n1 n1 = 1 → dotProduct n2 n2 = 1 → dotProduct n1 n2 = 0 →
  vlength (add n1 n2) = sqrt 2.
Proof.
  intros H1 H2 H12. unfold vlength. f_equal.
  transitivity (dotProduct n1 n1 + 2 * dotProduct n1 n2 + dotProduct n2 n2).
  - destruct n1, n2. unfold dotProduct, add. simpl. ring.
  - rewrite H1, H2, H12. ring.
Qed.

(** The bisector form that [createParametricDogbones] computes before its
    style branch: at a right-angle corner it is the centre that two offsets
    of r / sqrt 2 reproduce. *)
Lemma bisector_matches_offsets (corner : Point3D) (n1 n2 : Vector3D) (r : R) :
  dotProduct n1 n1 = 1 → dotProduct n2 n2 = 1 → dotProduct n1 n2 = 0 →
  translateBy corner (scaleBy (normalize (add n1 n2)) r)
  = centreByPlaneAndOffsets corner n1 n2 (r / sqrt 2) (r / sqrt 2).
Proof.
  intros H1 H2 H12. unfold normalize.
  rewrite (normal_sum_length _ _ H1 H2 H12).
  pose proof sqrt2_pos as Hs.
  destruct (Req_dec_T (sqrt 2) 0) as [Hz|_]; [lra|].
  destruct corner, n1, n2.
  unfold centreByPlaneAndOffsets, translateBy, scaleBy, add. simpl.
  f_equal; field; lra.
Qed.

(** The static routine, fed the unit bisector as corner vector, places the
    Normal-style centre where offsets of r / sqrt 2 put it. *)
Lemma static_centre_matches_offsets (dia off anyPercent : R) (par : bool)
    (longSide : bool) (selectedEdge : DbEdge) (edge0 edge1 : BRepEdge)
    (n1 n2 transformVector : Vector3D) :
  let param := mkParams dia off "Normal Dogbone" anyPercent false par in
  dotProduct n1 n1 = 1 → dotProduct n2 n2 = 1 → dotProduct n1 n2 = 0 →
  cornerVector selectedEdge = normalize (add n1 n2) →
  fst (createStaticDogbones_edge param longSide (staticRadius param)
         selectedEdge edge0 edge1 transformVector)
  = centreByPlaneAndOffsets (dogboneCentre selectedEdge) n1 n2
      (staticOffset param) (staticOffset param).
Proof.
  intros param H1 H2 H12 Hcv. unfold createStaticDogbones_edge.
  destruct (endPoints selectedEdge) as [sv ev]. simpl. rewrite Hcv.
  unfold centreDistance. simpl. rewrite Rmult_1_r.
  apply bisector_matches_offsets; done.
Qed.

Lemma inv_sqrt2_sqr : / sqrt 2 * / sqrt 2 = 1 / 2.
Proof.
  pose proof sqrt2_pos as Hs.
  assert (H : sqrt 2 * sqrt 2 = 2) by (apply sqrt_sqrt; lra).
  transitivity (/ (sqrt 2 * sqrt 2)); [field; lra|]. rewrite H. lra.
Qed.




(** The point the parametric routine itself hands to the kernel is another
    one: in Normal style the style branch replaces the scaled unit bisector
    by the plain sum of the two normals, so for a right-angle corner at the
    origin and tool radius 1 the point passed along with the offsets is
    (1, 1, 0), which only tells the kernel the quadrant. *)
Example parametric_normal_centre_ignores_radius :
  let up := onExecute_userParams Corner.normalParam in
  let pos := createParametricDogbones_edge Corner.normalParam true
               (dbRadius up) Corner.corner Corner.eX Corner.eY
               (Corner.wallX, Corner.wallY) (Vec 0 0 0) in
  dbRadius up = 1
  ∧ valueOf up (edge1OffsetByStr pos) = 1 / sqrt 2
  ∧ valueOf up (edge2OffsetByStr pos) = 1 / sqrt 2
  ∧ centrePoint pos = Pt 1 1 0
  ∧ distanceTo (centrePoint pos)
      (centreByPlaneAndOffsets (geometry Corner.corner)
         (f_normal Corner.wallX) (f_normal Corner.wallY)
         (valueOf up (edge1OffsetByStr pos))
         (valueOf up (edge2OffsetByStr pos)))
    > 1 / 1000000.
Proof.
  intros up pos. pose proof sqrt2_pos as Hs.
  assert (Hr : dbRadius up = 1) by (simpl; lra).
  assert (Ho : dbHoleOffset up = 1 / sqrt 2) by (simpl; field; lra).
  assert (Hc : centrePoint pos = Pt 1 1 0).
  { unfold pos, createParametricDogbones_edge, translateBy, add. simpl.
    f_equal; lra. }
  split_and!; [done|exact Ho|exact Ho|done|].
  rewrite Hc.
  change (valueOf up (edge1OffsetByStr pos)) with (dbHoleOffset up).
  change (valueOf up (edge2OffsetByStr pos)) with (dbHoleOffset up).
  rewrite Ho.
  unfold distanceTo, vlength, centreByPlaneAndOffsets, translateBy, scaleBy,
    dotProduct, vectorTo. simpl.
  pose proof inv_sqrt2_sqr as Ht.
  assert (Htpos : 0 < / sqrt 2) by (by apply Rinv_0_lt_compat).
  unfold Rdiv. rewrite Rmult_1_l. set (t := / sqrt 2) in *.
  rewrite <- (sqrt_square (1 * / 1000000)) by lra.
  apply sqrt_lt_1_alt. split; [nra|]. nra.
Qed.

(** * Further properties of the code *)

(** ** Edge helpers *)

(** X1.  When exactly one end of the edge lies on the face, the resolver's
    corner vertex is that end and [findExtent] is the other one: the corner
    is on the face, the extent is not. *)
Theorem findExtent_off_face (face : BRepFace) (edge : BRepEdge) :
  vertexIn (startVertex edge) (f_vertices face)
  ≠ vertexIn (endVertex edge) (f_vertices face) →
  vertexIn (cornerVertex face edge) (f_vertices face) = true
  ∧ vertexIn (findExtent face edge) (f_vertices face) = false
  ∧ ((cornerVertex face edge = startVertex edge
      ∧ findExtent face edge = endVertex edge)
     ∨ (cornerVertex face edge = endVertex edge
        ∧ findExtent face edge = startVertex edge)).
Proof.
  unfold cornerVertex, findExtent. intros Hxor.
  destruct (vertexIn (startVertex edge) _) eqn:Hs,
           (vertexIn (endVertex edge) _) eqn:He; try done.
  - split_and!; [done|done|by left].
  - split_and!; [done|done|by right].
Qed.

Lemma findExtent_off_face_witness :
  vertexIn (cornerVertex Cube.top Cube.eDrop) (f_vertices Cube.top) = true
  ∧ vertexIn (findExtent Cube.top Cube.eDrop) (f_vertices Cube.top) = false
  ∧ ((cornerVertex Cube.top Cube.eDrop = startVertex Cube.eDrop
      ∧ findExtent Cube.top Cube.eDrop = endVertex Cube.eDrop)
     ∨ (cornerVertex Cube.top Cube.eDrop = endVertex Cube.eDrop
        ∧ findExtent Cube.top Cube.eDrop = startVertex Cube.eDrop)).
Proof.
  apply (findExtent_off_face Cube.top Cube.eDrop). vm_compute. discriminate.
Defined.

Lemma isEqualTo_eq (p q : Point3D) : isEqualTo p q = true ↔ p = q.
Proof.
  unfold isEqualTo. rewrite isZero_true. destruct p, q. simpl. split.
  - intros (H1 & H2 & H3). f_equal; lra.
  - intros [= -> -> ->]. split_and!; ring.
Qed.

Lemma translateBy_vectorTo (p q : Point3D) : translateBy p (vectorTo p q) = q.
Proof. destruct p, q. unfold translateBy, vectorTo. simpl. f_equal; ring. Qed.

(** X2.  For a common point at either end of an edge of non-zero extent,
    [correctedEdgeVector] leads from the common point to the other end, and
    it is the same vector whichever way round the edge is stored. *)
Theorem correctedEdgeVector_away (edge : BRepEdge) (commonPoint : Point3D) :
  geometry (startVertex edge) ≠ geometry (endVertex edge) →
  (commonPoint = geometry (startVertex edge) →
     translateBy commonPoint (correctedEdgeVector edge commonPoint)
     = geometry (endVertex edge))
  ∧ (commonPoint = geometry (endVertex edge) →
     translateBy commonPoint (correctedEdgeVector edge commonPoint)
     = geometry (startVertex edge))
  ∧ (commonPoint = geometry (startVertex edge)
     ∨ commonPoint = geometry (endVertex edge) →
     correctedEdgeVector (reversedEdge edge) commonPoint
     = correctedEdgeVector edge commonPoint).
Proof.
  intros Hne. unfold correctedEdgeVector, reversedEdge. simpl.
  assert (Hse : isEqualTo (geometry (startVertex edge))
                  (geometry (endVertex edge)) = false).
  { destruct (isEqualTo _ _) eqn:H; [|done]. by apply isEqualTo_eq in H. }
  assert (Hes : isEqualTo (geometry (endVertex edge))
                  (geometry (startVertex edge)) = false).
  { destruct (isEqualTo (geometry (endVertex edge)) _) eqn:H; [|done].
    apply isEqualTo_eq in H. congruence. }
  assert (Hrefl : ∀ p, isEqualTo p p = true) by (intros p; by apply isEqualTo_eq).
  split_and!.
  - intros ->. rewrite Hrefl. apply translateBy_vectorTo.
  - intros ->. rewrite Hse. apply translateBy_vectorTo.
  - intros [-> | ->]; by rewrite ?Hrefl, ?Hse, ?Hes.
Qed.

Lemma correctedEdgeVector_away_witness :
  translateBy (Pt 0 0 0) (correctedEdgeVector Corner.eY (Pt 0 0 0))
  = Pt 0 4 0.
Proof.
  assert (Hne : geometry (startVertex Corner.eY)
                ≠ geometry (endVertex Corner.eY)).
  { simpl. intros [= H]. lra. }
  destruct (correctedEdgeVector_away Corner.eY (Pt 0 0 0) Hne)
    as (_ & Hend & _).
  apply Hend. reflexivity.
Defined.

(** X3.  For an edge with exactly one end on the reference face and
    distinct end points, [getEdgeVector] with that face points out from the
    face vertex whatever the [reverse] flag, and agrees with
    [correctedEdgeVector] taken at the resolver's corner vertex; without a
    face, reversing negates the vector. *)
Theorem getEdgeVector_from_face (face : BRepFace) (edge : BRepEdge)
    (reverse : bool) :
  vertexIn (startVertex edge) (f_vertices face)
  ≠ vertexIn (endVertex edge) (f_vertices face) →
  geometry (startVertex edge) ≠ geometry (endVertex edge) →
  getEdgeVector edge (Some face) reverse
  = vectorTo (geometry (cornerVertex face edge))
             (geometry (findExtent face edge))
  ∧ getEdgeVector edge (Some face) reverse
    = correctedEdgeVector edge (geometry (cornerVertex face edge))
  ∧ getEdgeVector edge None true
    = scaleBy (getEdgeVector edge None false) (-1).
Proof.
  intros Hxor Hne.
  unfold getEdgeVector, correctedEdgeVector, cornerVertex, findExtent.
  assert (Hes : isEqualTo (geometry (startVertex edge))
                  (geometry (endVertex edge)) = false).
  { destruct (isEqualTo _ _) eqn:H; [|done]. by apply isEqualTo_eq in H. }
  assert (Hrefl : isEqualTo (geometry (startVertex edge))
                    (geometry (startVertex edge)) = true)
    by (by apply isEqualTo_eq).
  destruct (vertexIn (startVertex edge) _) eqn:Hs,
           (vertexIn (endVertex edge) _) eqn:He; try done;
    rewrite ?Hrefl, ?Hes; (split_and!; [done|done|]);
    unfold vectorTo, scaleBy; simpl; f_equal; ring.
Qed.

Lemma getEdgeVector_from_face_witness :
  getEdgeVector Cube.eDrop (Some Cube.top) false
  = correctedEdgeVector Cube.eDrop (geometry (cornerVertex Cube.top Cube.eDrop)).
Proof.
  destruct (getEdgeVector_from_face Cube.top Cube.eDrop false)
    as (_ & H & _).
  - vm_compute. discriminate.
  - simpl. intros [= H]. lra.
  - exact H.
Defined.

(** ** Corner resolver: indifference to the order of the face's edges *)

Section ResolverOrder.
Variable hash : string → Z.

Let key (e : BRepEdge) : Z := hash (entityToken e).

Lemma faceEdgeDict_dom_acc (es : list BRepEdge) (m : gmap Z BRepEdge) k :
  k ∈ dom (foldl (fun m e => <[hash (entityToken e) := e]> m) m es) ↔
  k ∈ dom m ∨ k ∈ key <$> es.
Proof.
  revert m. induction es as [|e es IH]; intros m; simpl.
  - rewrite elem_of_nil. tauto.
  - rewrite IH, dom_insert, elem_of_union, elem_of_singleton, elem_of_cons.
    unfold key. intuition.
Qed.

Lemma elem_of_dom_faceEdgeDict (es : list BRepEdge) k :
  k ∈ dom (faceEdgeDict hash es) ↔ k ∈ key <$> es.
Proof.
  unfold faceEdgeDict. rewrite faceEdgeDict_dom_acc, dom_empty.
  rewrite elem_of_empty. tauto.
Qed.

Lemma key_inj_on (es : list BRepEdge) (a b : BRepEdge) :
  NoDup (key <$> es) → a ∈ es → b ∈ es → key a = key b → a = b.
Proof.
  induction es as [|e es IH]; simpl; intros Hnd Ha Hb Hk.
  - by apply elem_of_nil in Ha.
  - apply NoDup_cons in Hnd as [Hne Hnd].
    apply elem_of_cons in Ha as [->|Ha]; apply elem_of_cons in Hb as [->|Hb].
    + done.
    + exfalso. apply Hne. rewrite Hk. by apply list_elem_of_fmap_2.
    + exfalso. apply Hne. rewrite <- Hk. by apply list_elem_of_fmap_2.
    + by apply IH.
Qed.

Lemma faceEdgeDict_lookup_Some (es : list BRepEdge) (e : BRepEdge) :
  NoDup (key <$> es) → e ∈ es → faceEdgeDict hash es !! key e = Some e.
Proof.
  intros Hnd He.
  assert (Hdom : key e ∈ dom (faceEdgeDict hash es)).
  { apply elem_of_dom_faceEdgeDict. by apply list_elem_of_fmap_2. }
  apply elem_of_dom in Hdom as [e' He'].
  destruct (faceEdgeDict_lookup hash _ _ _ He') as [Hin Hk].
  by rewrite He', (key_inj_on es e' e Hnd Hin He Hk).
Qed.

Lemma faceEdgeDict_perm (es es' : list BRepEdge) :
  NoDup (key <$> es) → es ≡ₚ es' →
  faceEdgeDict hash es' = faceEdgeDict hash es.
Proof.
  intros Hnd Hp. apply map_eq. intros k.
  assert (Hnd' : NoDup (key <$> es')) by (by rewrite <- Hp).
  destruct (faceEdgeDict hash es !! k) as [e|] eqn:Hk.
  - destruct (faceEdgeDict_lookup hash _ _ _ Hk) as [Hin <-].
    apply faceEdgeDict_lookup_Some; [done|]. by rewrite <- Hp.
  - apply not_elem_of_dom. apply not_elem_of_dom in Hk.
    rewrite elem_of_dom_faceEdgeDict in *. by rewrite <- Hp.
Qed.

(** X4.  The resolver does not depend on the order in which the face lists
    its boundary edges (the winding of its loops), as long as the edges'
    token hashes are pairwise distinct: for every iteration order of the
    intersection set it fails alike, or returns the same two edges, possibly
    in the other order. *)
Theorem getCornerEdgesAtFace_edge_order
    (setOrder : list Z → list Z → gset Z → list Z)
    (face : BRepFace) (edge : BRepEdge) (es : list BRepEdge) :
  validSetOrder setOrder →
  NoDup ((fun e => hash (entityToken e)) <$> f_edges face) →
  f_edges face ≡ₚ es →
  sameUpToOrder
    (getCornerEdgesAtFace hash setOrder (withEdges face es) edge)
    (getCornerEdgesAtFace hash setOrder face edge).
Proof.
  intros Hvalid Hnd Hp.
  unfold getCornerEdgesAtFace, commonEdges, cornerVertex, withEdges. simpl.
  rewrite (faceEdgeDict_perm _ _ Hnd Hp).
  destruct (decide _) as [|_]; simpl; [done|].
  by rewrite !(Hvalid _ _ _).
Qed.

End ResolverOrder.

(** The cube's top face with its loop listed the other way round. *)
Lemma getCornerEdgesAtFace_edge_order_witness :
  sameUpToOrder
    (getCornerEdgesAtFace polyHash canonicalOrder
       (withEdges Cube.top [Cube.eB; Cube.eD; Cube.eC; Cube.eA]) Cube.eDrop)
    (getCornerEdgesAtFace polyHash canonicalOrder Cube.top Cube.eDrop).
Proof.
  apply (getCornerEdgesAtFace_edge_order polyHash canonicalOrder
           Cube.top Cube.eDrop).
  - apply canonicalOrder_valid.
  - apply (bool_decide_unpack _). vm_compute. reflexivity.
  - simpl. apply (Permutation_rev [Cube.eA; Cube.eC; Cube.eD; Cube.eB]).
Defined.

(** ** Dihedral classifier: range, failures, symmetry *)

(** X5.  On an edge with two faces and two co-edges the classifier always
    answers, and its answer lies between 0 and 2 PI. *)
Theorem getAngleBetweenFaces_range (edge : EdgeUse)
    (face1 face2 : option BRepFace) (coEdge1 coEdge2 : BRepCoEdge) :
  u_faces edge = [face1; face2] →
  u_coEdges edge = [coEdge1; coEdge2] →
  ∃ angle : R,
    getAngleBetweenFaces edge = Ok angle ∧ 0 <= angle <= 2 * PI.
Proof.
  intros Hf Hc. unfold getAngleBetweenFaces. rewrite Hf, Hc.
  pose proof PI_RGT_0 as Hpi.
  assert (Hzero : ∃ angle : R, Ok 0 = Ok angle ∧ 0 <= angle <= 2 * PI).
  { exists 0. split; [done|lra]. }
  destruct face1 as [f1|], face2 as [f2|]; try done.
  destruct (negb (isPlane f1) || negb (isPlane f2)); [done|].
  eexists. split; [done|].
  assert (Hb : 0 <= angleTo (f_normal f1) (f_normal f2) <= PI)
    by apply acos_bound.
  simpl. destruct (Rgt_dec _ _); lra.
Qed.

Lemma getAngleBetweenFaces_range_witness :
  ∃ angle : R,
    getAngleBetweenFaces Cube.useA = Ok angle ∧ 0 <= angle <= 2 * PI.
Proof.
  apply (getAngleBetweenFaces_range Cube.useA (Some Cube.top)
           (Some Cube.front) Cube.coTop Cube.coFront); reflexivity.
Defined.

(** X6.  The classifier unpacks exactly two faces and, for planar faces,
    exactly two co-edges: an edge with any other number of faces (a free
    or non-manifold edge) raises [ValueError], and so does an edge between
    two planar faces with any other number of co-edges. *)
Theorem getAngleBetweenFaces_unpack_errors (edge : EdgeUse) :
  (length (u_faces edge) ≠ 2%nat →
     getAngleBetweenFaces edge = Raise ValueError)
  ∧ (∀ face1 face2 : BRepFace,
       u_faces edge = [Some face1; Some face2] →
       objectType face1 = PlaneSurface → objectType face2 = PlaneSurface →
       length (u_coEdges edge) ≠ 2%nat →
       getAngleBetweenFaces edge = Raise ValueError).
Proof.
  unfold getAngleBetweenFaces, isPlane. split.
  - intros Hlen. by destruct (u_faces edge) as [|? [|? [|? ?]]].
  - intros f1 f2 -> -> -> Hlen. simpl.
    by destruct (u_coEdges edge) as [|? [|? [|? ?]]].
Qed.

Lemma getAngleBetweenFaces_unpack_errors_witness :
  getAngleBetweenFaces (mkEdgeUse Cube.eA [Some Cube.top] [Cube.coTop])
  = Raise ValueError.
Proof.
  apply (getAngleBetweenFaces_unpack_errors
           (mkEdgeUse Cube.eA [Some Cube.top] [Cube.coTop])).
  simpl. lia.
Defined.

Lemma angleTo_flip (p q : Point3D) (n1 n2 : Vector3D) :
  angleTo (vectorTo q p) (crossProduct n1 n2)
  = angleTo (vectorTo p q) (crossProduct n2 n1).
Proof.
  destruct p, q, n1, n2.
  unfold angleTo, vlength, dotProduct, crossProduct, vectorTo. simpl.
  f_equal. f_equal; [ring|]. f_equal; f_equal; ring.
Qed.

(** X7.  For an edge whose two co-edges run in opposite directions, one of
    them on the loop of each face, the classification does not depend on
    which of the two faces the kernel lists first. *)
Theorem getAngleBetweenFaces_face_order (edge : BRepEdge)
    (face1 face2 : BRepFace) (coEdge1 coEdge2 : BRepCoEdge) :
  faceId face1 ≠ faceId face2 →
  faceId (loopFace coEdge1) = faceId face1 →
  isOpposedToEdge coEdge1 = negb (isOpposedToEdge coEdge2) →
  getAngleBetweenFaces
    (mkEdgeUse edge [Some face2; Some face1] [coEdge1; coEdge2])
  = getAngleBetweenFaces
      (mkEdgeUse edge [Some face1; Some face2] [coEdge1; coEdge2]).
Proof.
  intros Hne H1 Hopp. unfold getAngleBetweenFaces. simpl.
  rewrite (orb_comm (negb (isPlane face2))).
  destruct (negb (isPlane face1) || negb (isPlane face2)); [done|].
  rewrite H1, Z.eqb_refl.
  assert (Z.eqb (faceId face1) (faceId face2) = false) as -> by lia.
  rewrite (angleTo_comm (f_normal face2)).
  unfold getEdgeVector. rewrite Hopp.
  destruct (isOpposedToEdge coEdge2); simpl;
    by rewrite angleTo_flip.
Qed.

Lemma getAngleBetweenFaces_face_order_witness :
  getAngleBetweenFaces
    (mkEdgeUse Cube.eA [Some Cube.front; Some Cube.top]
       [Cube.coTop; Cube.coFront])
  = getAngleBetweenFaces Cube.useA.
Proof.
  apply (getAngleBetweenFaces_face_order Cube.eA Cube.top Cube.front
           Cube.coTop Cube.coFront); [discriminate|reflexivity..].
Defined.

(** ** Top-face locator: failures, direction, stability *)

Lemma parallelFaceList_no_vertex (sel : BRepFace) (faces : list BRepFace)
    (bad : BRepFace) :
  let n := getFaceNormal sel in
  let p := referencePoint sel in
  dotProduct n n ≠ 0 →
  bad ∈ faces → parallelTo sel bad = true → f_vertices bad = [] →
  parallelFaceList n (InfiniteLine3D_create p n) (Some p) faces
  = Raise AttributeError.
Proof.
  intros n p Hn. induction faces as [|f faces IH]; intros Hin Hpar Hv.
  - by apply elem_of_nil in Hin.
  - simpl. change (isParallelTo n (getFaceNormal f)) with (parallelTo sel f).
    apply elem_of_cons in Hin as [<-|Hin].
    + rewrite Hpar. simpl. unfold firstVertexPoint. by rewrite Hv.
    + destruct (parallelTo sel f); simpl; [|by apply IH].
      destruct (firstVertexPoint f) as [q|e] eqn:Hq; simpl.
      * rewrite intersectWithLine_normal by done. simpl.
        by rewrite IH.
      * unfold firstVertexPoint in Hq.
        destruct (f_vertices f); [by injection Hq as <-|discriminate].
Qed.

(** X8.  The locator fails on faces without vertices: it raises
    [AttributeError] when the selected face has no vertex, and also when
    the selected face has one (and a non-zero normal) but some face of the
    body parallel to it has none. *)
Theorem getTopFace_errors (body : BRepBody) (selectedFace : BRepFace) :
  (f_vertices selectedFace = [] →
     getTopFace body selectedFace = Raise AttributeError)
  ∧ (∀ bad : BRepFace,
       f_vertices selectedFace ≠ [] →
       dotProduct (getFaceNormal selectedFace) (getFaceNormal selectedFace)
       ≠ 0 →
       bad ∈ b_faces body → parallelTo selectedFace bad = true →
       f_vertices bad = [] →
       getTopFace body selectedFace = Raise AttributeError).
Proof.
  unfold getTopFace. split.
  - intros Hv. unfold firstVertexPoint. by rewrite Hv.
  - intros bad Hv Hn Hin Hpar Hbad. rewrite firstVertexPoint_ok by done.
    simpl. rewrite intersectWithLine_self by done.
    by rewrite (parallelFaceList_no_vertex selectedFace _ bad).
Qed.

(** The pocket with one more rim face that has no vertex. *)
Lemma getTopFace_errors_witness :
  getTopFace
    (mkBody [Pocket.floor; Pocket.rimA;
             mkFace 9 PlaneSurface (Vec 0 0 1) (Pt 5 5 2) None [] []])
    Pocket.floor
  = Raise AttributeError.
Proof.
  apply (proj2 (getTopFace_errors
                  (mkBody [Pocket.floor; Pocket.rimA;
                           mkFace 9 PlaneSurface (Vec 0 0 1) (Pt 5 5 2)
                                  None [] []])
                  Pocket.floor)
           (mkFace 9 PlaneSurface (Vec 0 0 1) (Pt 5 5 2) None [] [])).
  - done.
  - geometry_simpl. lra.
  - simpl. set_solver.
  - apply isParallelTo_cross. simpl. lra.
  - reflexivity.
Defined.

Lemma signedDistance_self (face : BRepFace) : signedDistance face face = 0.
Proof.
  unfold signedDistance, vectorTo, dotProduct. simpl. ring.
Qed.

(** X9.  The two calls [createParametricDogbones] makes for "from top"
    compose: on a body containing the selected face (unit normal, every
    parallel face having a vertex) the locator returns a face that does not
    lie behind the selected face, and the translator moves from the selected
    face to it by that signed distance along the normal. *)
Theorem getTopFace_then_translate (body : BRepBody) (selectedFace : BRepFace) :
  let n := getFaceNormal selectedFace in
  selectedFace ∈ b_faces body →
  dotProduct n n = 1 →
  (∀ f, f ∈ b_faces body → parallelTo selectedFace f = true →
        f_vertices f ≠ []) →
  ∃ (topFace : BRepFace) (refPoint : Point3D),
    getTopFace body selectedFace = Ok (topFace, refPoint)
    ∧ topFace ∈ b_faces body
    ∧ 0 <= signedDistance selectedFace topFace
    ∧ getTranslateVectorBetweenFaces selectedFace topFace
      = Ok (Some (scaleBy n (signedDistance selectedFace topFace))).
Proof.
  intros n Hsel Hn Hv.
  destruct (getTopFace_char body selectedFace Hsel) as
    (top & i & Hget & Hi & Hpar & Hmax); [fold n; lra|done|].
  exists top, (nativePointOnFace top). split; [done|].
  split; [by eapply list_elem_of_lookup_2|].
  apply list_elem_of_lookup_1 in Hsel as [j Hj].
  destruct (Hmax j selectedFace Hj (isParallelTo_refl _)) as [Hle _].
  rewrite signedDistance_self in Hle. split; [done|].
  apply getTranslateVectorBetweenFaces_value; [|by eauto using list_elem_of_lookup_2|done].
  apply Hv; [by eapply list_elem_of_lookup_2|apply isParallelTo_refl].
Qed.

Lemma getTopFace_then_translate_witness :
  ∃ (topFace : BRepFace) (refPoint : Point3D),
    getTopFace Pocket.body Pocket.floor = Ok (topFace, refPoint)
    ∧ topFace ∈ b_faces Pocket.body
    ∧ 0 <= signedDistance Pocket.floor topFace
    ∧ getTranslateVectorBetweenFaces Pocket.floor topFace
      = Ok (Some (scaleBy (getFaceNormal Pocket.floor)
                    (signedDistance Pocket.floor topFace))).
Proof.
  apply (getTopFace_then_translate Pocket.body Pocket.floor).
  - left.
  - geometry_simpl. lra.
  - intros f Hf _. simpl in Hf.
    repeat (apply elem_of_cons in Hf as [->|Hf]; [done|]).
    by apply elem_of_nil in Hf.
Defined.

(** X10.  Locating is stable: when the face that comes back has the same
    normal as the reference face, asking again from that face returns it
    once more. *)
Theorem getTopFace_stable (body : BRepBody) (selectedFace topFace : BRepFace)
    (refPoint : Point3D) :
  selectedFace ∈ b_faces body →
  dotProduct (getFaceNormal selectedFace) (getFaceNormal selectedFace) ≠ 0 →
  (∀ f, f ∈ b_faces body → parallelTo selectedFace f = true →
        f_vertices f ≠ []) →
  getTopFace body selectedFace = Ok (topFace, refPoint) →
  getFaceNormal topFace = getFaceNormal selectedFace →
  getTopFace body topFace = Ok (topFace, refPoint).
Proof.
  intros Hsel Hn Hv Hget Hnormal.
  destruct (getTopFace_char body selectedFace Hsel Hn Hv) as
    (top & i & Hget' & Hi & Hpar & Hmax).
  rewrite Hget in Hget'. injection Hget' as <- ->.
  assert (Hpeq : ∀ f, parallelTo topFace f = parallelTo selectedFace f).
  { intros f. unfold parallelTo. by rewrite Hnormal. }
  assert (Hsd : ∀ f, signedDistance topFace f
                     = signedDistance selectedFace f
                       - signedDistance selectedFace topFace).
  { intros f. unfold signedDistance. rewrite Hnormal.
    destruct (referencePoint f), (referencePoint topFace),
      (referencePoint selectedFace).
    unfold vectorTo, dotProduct. simpl. ring. }
  destruct (getTopFace_char body topFace) as
    (top' & i' & Hget' & Hi' & Hpar' & Hmax').
  { by eapply list_elem_of_lookup_2. }
  { by rewrite Hnormal. }
  { intros f Hf. rewrite Hpeq. by apply Hv. }
  rewrite Hpeq in Hpar'.
  destruct (Hmax i' top' Hi' Hpar') as [Hle1 Hlt1].
  assert (Hpt : parallelTo topFace topFace = true) by apply isParallelTo_refl.
  destruct (Hmax' i topFace Hi Hpt) as [Hle2 Hlt2].
  rewrite !Hsd in Hle2, Hlt2.
  assert (i = i') as <-.
  { destruct (Nat.lt_trichotomy i i') as [Hlt|[Heq|Hgt]]; [|done|].
    - specialize (Hlt1 Hlt). lra.
    - specialize (Hlt2 Hgt). lra. }
  rewrite Hi in Hi'. injection Hi' as <-. exact Hget'.
Qed.

Lemma getTopFace_stable_witness :
  getTopFace Pocket.body Pocket.rimB
  = Ok (Pocket.rimB, pointOnFace Pocket.rimB).
Proof.
  apply (getTopFace_stable Pocket.body Pocket.floor).
  - left.
  - geometry_simpl. lra.
  - intros f Hf _. simpl in Hf.
    repeat (apply elem_of_cons in Hf as [->|Hf]; [done|]).
    by apply elem_of_nil in Hf.
  - apply getTopFace_pocket_last.
  - reflexivity.
Defined.

(** ** Plane translator: where it lands, how it adds up, how it fails *)

(** X11.  With a unit normal on [fromFace], the translation runs along that
    normal and carries every point as far in front of [toFace]'s reference
    point as it was in front of [fromFace]'s: points of the plane of
    [fromFace] land on the parallel plane through [toFace]. *)
Theorem getTranslateVectorBetweenFaces_lands_on_plane
    (fromFace toFace : BRepFace) :
  let n := getFaceNormal fromFace in
  f_vertices fromFace ≠ [] →
  f_vertices toFace ≠ [] →
  dotProduct n n = 1 →
  ∃ v : Vector3D,
    getTranslateVectorBetweenFaces fromFace toFace = Ok (Some v)
    ∧ isParallelTo n v = true
    ∧ ∀ p : Point3D,
        dotProduct (vectorTo (referencePoint toFace) (translateBy p v)) n
        = dotProduct (vectorTo (referencePoint fromFace) p) n.
Proof.
  intros n Hf Ht Hn. eexists. split.
  { by apply getTranslateVectorBetweenFaces_value. }
  fold n. destruct n as [a b c].
  destruct (referencePoint fromFace) as [xa ya za].
  destruct (referencePoint toFace) as [xb yb zb].
  unfold dotProduct in Hn. simpl in Hn. split.
  - apply isParallelTo_cross. simpl. split_and!; ring.
  - intros [x y z]. unfold dotProduct, vectorTo, translateBy, scaleBy. simpl.
    set (d := (xb - xa) * a + (yb - ya) * b + (zb - za) * c).
    transitivity ((x - xb) * a + (y - yb) * b + (z - zb) * c
                  + d * (a * a + b * b + c * c)); [ring|].
    rewrite Hn. unfold d. ring.
Qed.

Lemma getTranslateVectorBetweenFaces_lands_on_plane_witness :
  ∃ v : Vector3D,
    getTranslateVectorBetweenFaces Pocket.floor Pocket.rimA = Ok (Some v)
    ∧ isParallelTo (getFaceNormal Pocket.floor) v = true
    ∧ ∀ p : Point3D,
        dotProduct (vectorTo (referencePoint Pocket.rimA) (translateBy p v))
                   (getFaceNormal Pocket.floor)
        = dotProduct (vectorTo (referencePoint Pocket.floor) p)
                     (getFaceNormal Pocket.floor).
Proof.
  apply (getTranslateVectorBetweenFaces_lands_on_plane
           Pocket.floor Pocket.rimA); [done|done|].
  geometry_simpl. lra.
Defined.

(** X12.  Translations add up: for parallel faces A and B with unit normals
    and any face C, going from A to B and then from B to C is the
    translation from A to C. *)
Theorem getTranslateVectorBetweenFaces_additive (faceA faceB faceC : BRepFace) :
  f_vertices faceA ≠ [] → f_vertices faceB ≠ [] → f_vertices faceC ≠ [] →
  dotProduct (getFaceNormal faceA) (getFaceNormal faceA) = 1 →
  dotProduct (getFaceNormal faceB) (getFaceNormal faceB) = 1 →
  parallelTo faceA faceB = true →
  ∃ vAB vBC vAC : Vector3D,
    getTranslateVectorBetweenFaces faceA faceB = Ok (Some vAB)
    ∧ getTranslateVectorBetweenFaces faceB faceC = Ok (Some vBC)
    ∧ getTranslateVectorBetweenFaces faceA faceC = Ok (Some vAC)
    ∧ add vAB vBC = vAC.
Proof.
  intros HvA HvB HvC HnA HnB Hpar.
  rewrite !getTranslateVectorBetweenFaces_value by done.
  eexists _, _, _. split_and!; [done..|].
  destruct (parallel_unit_normals _ _ HnA HnB Hpar) as (s & Hs & Hn).
  rewrite Hn.
  destruct (getFaceNormal faceA) as [a b c].
  destruct (referencePoint faceA) as [xa ya za].
  destruct (referencePoint faceB) as [xb yb zb].
  destruct (referencePoint faceC) as [xc yc zc].
  unfold add, scaleBy, dotProduct, vectorTo. simpl.
  set (e := (xc - xb) * a + (yc - yb) * b + (zc - zb) * c).
  f_equal.
  - transitivity (((xc - xa) * a + (yc - ya) * b + (zc - za) * c) * a
                  + e * a * (s * s - 1)); [unfold e; ring|rewrite Hs; ring].
  - transitivity (((xc - xa) * a + (yc - ya) * b + (zc - za) * c) * b
                  + e * b * (s * s - 1)); [unfold e; ring|rewrite Hs; ring].
  - transitivity (((xc - xa) * a + (yc - ya) * b + (zc - za) * c) * c
                  + e * c * (s * s - 1)); [unfold e; ring|rewrite Hs; ring].
Qed.

Lemma getTranslateVectorBetweenFaces_additive_witness :
  ∃ vAB vBC vAC : Vector3D,
    getTranslateVectorBetweenFaces Pocket.underside Pocket.floor
      = Ok (Some vAB)
    ∧ getTranslateVectorBetweenFaces Pocket.floor Pocket.rimB = Ok (Some vBC)
    ∧ getTranslateVectorBetweenFaces Pocket.underside Pocket.rimB
      = Ok (Some vAC)
    ∧ add vAB vBC = vAC.
Proof.
  apply (getTranslateVectorBetweenFaces_additive
           Pocket.underside Pocket.floor Pocket.rimB); try done.
  - geometry_simpl. lra.
  - geometry_simpl. lra.
  - apply isParallelTo_cross. simpl. lra.
Defined.

(** X13.  With a unit normal, the length of the translation is the
    distance between the two planes, the absolute value of the signed
    distance; from a face to itself it is the zero vector. *)
Theorem getTranslateVectorBetweenFaces_length (fromFace toFace : BRepFace) :
  f_vertices fromFace ≠ [] →
  f_vertices toFace ≠ [] →
  dotProduct (getFaceNormal fromFace) (getFaceNormal fromFace) = 1 →
  (∃ v : Vector3D,
     getTranslateVectorBetweenFaces fromFace toFace = Ok (Some v)
     ∧ vlength v = Rabs (signedDistance fromFace toFace))
  ∧ getTranslateVectorBetweenFaces fromFace fromFace = Ok (Some (Vec 0 0 0)).
Proof.
  intros Hf Ht Hn. rewrite !getTranslateVectorBetweenFaces_value by done.
  split.
  - eexists. split; [done|]. fold (signedDistance fromFace toFace).
    set (d := signedDistance fromFace toFace).
    rewrite <- sqrt_Rsqr_abs. unfold vlength. f_equal.
    destruct (getFaceNormal fromFace) as [a b c].
    unfold dotProduct, scaleBy, Rsqr in *. simpl in *.
    transitivity (d * d * (a * a + b * b + c * c)); [ring|rewrite Hn; ring].
  - fold (signedDistance fromFace fromFace). rewrite signedDistance_self.
    unfold scaleBy. do 2 f_equal. f_equal; ring.
Qed.

Lemma getTranslateVectorBetweenFaces_length_witness :
  (∃ v : Vector3D,
     getTranslateVectorBetweenFaces Prism.bottom (Prism.top 3) = Ok (Some v)
     ∧ vlength v = Rabs (signedDistance Prism.bottom (Prism.top 3)))
  ∧ getTranslateVectorBetweenFaces Prism.bottom Prism.bottom
    = Ok (Some (Vec 0 0 0)).
Proof.
  apply (getTranslateVectorBetweenFaces_length Prism.bottom (Prism.top 3));
    [done|done|].
  geometry_simpl. lra.
Defined.

(** X14.  The translator raises [AttributeError] when either face has no
    vertex. *)
Theorem getTranslateVectorBetweenFaces_errors (fromFace toFace : BRepFace) :
  f_vertices fromFace = [] ∨ f_vertices toFace = [] →
  getTranslateVectorBetweenFaces fromFace toFace = Raise AttributeError.
Proof.
  unfold getTranslateVectorBetweenFaces. rewrite isParallelTo_refl. simpl.
  unfold firstVertexPoint.
  intros [H|H]; rewrite H; [done|].
  by destruct (f_vertices fromFace).
Qed.

Lemma getTranslateVectorBetweenFaces_errors_witness :
  getTranslateVectorBetweenFaces
    (mkFace 9 PlaneSurface (Vec 0 0 1) (Pt 0 0 0) None [] []) Prism.bottom
  = Raise AttributeError.
Proof.
  apply (getTranslateVectorBetweenFaces_errors
           (mkFace 9 PlaneSurface (Vec 0 0 1) (Pt 0 0 0) None [] [])
           Prism.bottom).
  by left.
Defined.

(** ** Command handlers *)

(** X15.  [onValidate] only ever withdraws validity: the inputs are valid
    afterwards exactly when they were valid before, every face selection
    holds at least one face and every tool diameter is positive.  No other
    input, the diameter offset included, is looked at. *)
Theorem onValidate_valid_iff (inputs : list CommandInput)
    (areInputsValid : bool) :
  onValidate inputs areInputsValid = true ↔
  areInputsValid = true
  ∧ Forall (fun input =>
              (inputId input = "faceSelect" →
                 (1 <= selectionCount input)%Z)
              ∧ (inputId input = "toolDia" → 0 < inputValue input))
           inputs.
Proof.
  unfold onValidate. revert areInputsValid.
  induction inputs as [|input inputs IH]; intros valid; simpl.
  - split; [intros ->; by split|by intros [-> _]].
  - rewrite IH, Forall_cons. clear IH.
    destruct (String.eqb (inputId input) "faceSelect") eqn:Hface.
    + apply String.eqb_eq in Hface.
      destruct (Z.ltb_spec (selectionCount input) 1) as [Hlt|Hge].
      * split; [by intros [? _]|]. intros (_ & [Hsel _] & _).
        specialize (Hsel Hface). lia.
      * split; [intros [-> ?]|intros (-> & _ & ?)]; split_and!; try done.
        intros Htool. rewrite Hface in Htool. discriminate.
    + apply String.eqb_neq in Hface.
      destruct (String.eqb (inputId input) "toolDia") eqn:Htool.
      * apply String.eqb_eq in Htool.
        destruct (Rle_dec (inputValue input) 0) as [Hle|Hgt].
        -- split; [by intros [? _]|]. intros (_ & [_ Hval] & _).
           specialize (Hval Htool). lra.
        -- split; [intros [-> ?]|intros (-> & _ & ?)]; split_and!; try done.
           intros _. lra.
      * apply String.eqb_neq in Htool.
        split; [intros [-> ?]|intros (-> & _ & ?)]; split_and!; done.
Qed.

(** X16.  [onExecute] computes the same radius and hole offset in its
    parametric and its static branch, and the offset fits the centre
    distance of the creation routines: outside Mortise style two offsets at
    right angles span exactly the centre distance, in Mortise style the
    offset is the centre distance. *)
Theorem onExecute_offset_fits_centreDistance (param : DbParams) :
  let up := onExecute_userParams param in
  dbRadius up = staticRadius param
  ∧ dbHoleOffset up = staticOffset param
  ∧ (isMortise param = false →
       staticOffset param * sqrt 2 = centreDistance param (staticRadius param)
       ∧ staticOffset param * staticOffset param
         + staticOffset param * staticOffset param
         = centreDistance param (staticRadius param)
           * centreDistance param (staticRadius param))
  ∧ (isMortise param = true →
       staticOffset param = centreDistance param (staticRadius param)).
Proof.
  pose proof sqrt2_pos as Hs.
  assert (Hsq : sqrt 2 * sqrt 2 = 2) by (apply sqrt_sqrt; lra).
  split_and!; try done.
  - intros Hm.
    assert (H1 : staticOffset param * sqrt 2
                 = centreDistance param (staticRadius param)).
    { unfold staticOffset, centreDistance. rewrite Hm.
      destruct (isMinimal param); field; lra. }
    split; [done|]. rewrite <- H1.
    transitivity (staticOffset param * staticOffset param * (sqrt 2 * sqrt 2));
      [rewrite Hsq|]; ring.
  - intros Hm. unfold staticOffset, centreDistance.
    rewrite (isMortise_not_minimal _ Hm), Hm. ring.
Qed.

Lemma onExecute_offset_fits_centreDistance_witness :
  staticOffset Corner.minimalParam * sqrt 2
  = centreDistance Corner.minimalParam (staticRadius Corner.minimalParam).
Proof.
  destruct (onExecute_offset_fits_centreDistance Corner.minimalParam)
    as (_ & _ & H & _).
  apply H. reflexivity.
Defined.

(** ** Placement: what moves the centre point *)

(** X17.  In [createParametricDogbones] the centre point handed to the
    kernel never depends on the tool: two runs that agree on style and
    depth mode give the same point and direction for the same corner,
    whatever their tool diameters, offsets, percentages and radii. *)
Theorem parametric_centre_ignores_tool (param param' : DbParams)
    (radius radius' : R) (longSide : bool) (startVertex : BRepVertex)
    (edge1 edge2 : BRepEdge) (selectedEdgeFaces : BRepFace * BRepFace)
    (transformVector : Vector3D) :
  dbType param' = dbType param →
  fromTop param' = fromTop param →
  let pos := createParametricDogbones_edge param longSide radius
               startVertex edge1 edge2 selectedEdgeFaces transformVector in
  let pos' := createParametricDogbones_edge param' longSide radius'
                startVertex edge1 edge2 selectedEdgeFaces transformVector in
  centrePoint pos' = centrePoint pos ∧ dirVect pos' = dirVect pos.
Proof.
  intros Ht Hf. unfold createParametricDogbones_edge, isMortise.
  rewrite Ht, Hf.
  destruct (String.eqb (dbType param) "Mortise Dogbone"); [|done].
  by destruct longSide, (Rgt_dec (e_length edge1) (e_length edge2)).
Qed.

Lemma parametric_centre_ignores_tool_witness :
  centrePoint
    (createParametricDogbones_edge Corner.minimalParam true 5 Corner.corner
       Corner.eX Corner.eY (Corner.wallX, Corner.wallY) (Vec 0 0 0))
  = centrePoint
      (createParametricDogbones_edge
         (mkParams 7 1 "Minimal Dogbone" 50 false false) true 1 Corner.corner
         Corner.eX Corner.eY (Corner.wallX, Corner.wallY) (Vec 0 0 0)).
Proof.
  apply (parametric_centre_ignores_tool
           (mkParams 7 1 "Minimal Dogbone" 50 false false)
           Corner.minimalParam 1 5); reflexivity.
Defined.

Lemma vlength_scaleBy (v : Vector3D) (k : R) :
  vlength (scaleBy v k) = Rabs k * vlength v.
Proof.
  unfold vlength. rewrite <- sqrt_Rsqr_abs, <- sqrt_mult_alt by apply Rle_0_sqr.
  f_equal. destruct v. unfold dotProduct, scaleBy, Rsqr. simpl. ring.
Qed.

Lemma dotProduct_self_nonneg (v : Vector3D) : 0 <= dotProduct v v.
Proof. destruct v. unfold dotProduct. simpl. nra. Qed.

Lemma vlength_normalize (v : Vector3D) :
  vlength v ≠ 0 → vlength (normalize v) = 1.
Proof.
  intros Hv. unfold normalize.
  destruct (Req_dec_T (vlength v) 0) as [|_]; [done|].
  rewrite vlength_scaleBy.
  assert (0 <= vlength v) by apply sqrt_pos.
  rewrite Rabs_right; [by apply Rinv_l|].
  apply Rle_ge, Rlt_le, Rinv_0_lt_compat. lra.
Qed.

Lemma sum_squares_zero (a b c : R) :
  a * a + b * b + c * c = 0 → a = 0 ∧ b = 0 ∧ c = 0.
Proof.
  intros H.
  pose proof (Rle_0_sqr a) as Ha. pose proof (Rle_0_sqr b) as Hb.
  pose proof (Rle_0_sqr c) as Hc. unfold Rsqr in *.
  split_and!; apply Rsqr_0_uniq; unfold Rsqr; lra.
Qed.

Lemma vlength_vectorTo_nonzero (p q : Point3D) :
  p ≠ q → vlength (vectorTo p q) ≠ 0.
Proof.
  intros Hne Hz. apply Hne. unfold vlength in Hz.
  apply sqrt_eq_0 in Hz; [|apply dotProduct_self_nonneg].
  destruct p, q. unfold dotProduct, vectorTo in Hz. simpl in Hz.
  apply sum_squares_zero in Hz as (H1 & H2 & H3). f_equal; lra.
Qed.

Lemma distanceTo_translateBy (p : Point3D) (v : Vector3D) :
  distanceTo p (translateBy p v) = vlength v.
Proof.
  unfold distanceTo. f_equal. destruct p, v.
  unfold vectorTo, translateBy. simpl. f_equal; ring.
Qed.

(** X18.  In [createStaticDogbones], Mortise style without "from top", the
    centre point lies exactly the centre distance away from the dogbone
    centre, along one of the two corner edges (taken as non-degenerate). *)
Theorem static_mortise_centre_distance (param : DbParams) (longSide : bool)
    (radius : R) (selectedEdge : DbEdge) (edge0 edge1 : BRepEdge)
    (transformVector : Vector3D) :
  isMortise param = true →
  fromTop param = false →
  geometry (startVertex edge0) ≠ geometry (endVertex edge0) →
  geometry (startVertex edge1) ≠ geometry (endVertex edge1) →
  distanceTo (dogboneCentre selectedEdge)
    (fst (createStaticDogbones_edge param longSide radius selectedEdge
            edge0 edge1 transformVector))
  = Rabs (centreDistance param radius).
Proof.
  intros Hm Hf H0 H1. unfold createStaticDogbones_edge.
  rewrite Hm, Hf. destruct (endPoints selectedEdge) as [sv ev]. simpl.
  rewrite distanceTo_translateBy, vlength_scaleBy.
  assert (Hunit : ∀ e, geometry (startVertex e) ≠ geometry (endVertex e) →
            vlength (normalize (correctedEdgeVector e sv)) = 1).
  { intros e He. apply vlength_normalize. unfold correctedEdgeVector.
    destruct (isEqualTo _ _); apply vlength_vectorTo_nonzero; congruence. }
  destruct longSide, (Rgt_dec (e_length edge0) (e_length edge1));
    rewrite Hunit by done; ring.
Qed.

Lemma static_mortise_centre_distance_witness :
  distanceTo (dogboneCentre Corner.dbEdge)
    (fst (createStaticDogbones_edge Corner.mortiseParam true 1 Corner.dbEdge
            Corner.eX Corner.eY (Vec 0 0 0)))
  = Rabs (centreDistance Corner.mortiseParam 1).
Proof.
  apply (static_mortise_centre_distance Corner.mortiseParam true 1
           Corner.dbEdge Corner.eX Corner.eY (Vec 0 0 0));
    try reflexivity; simpl; intros [= H]; lra.
Defined.

(** ** Hole bookkeeping of the creation routines *)

(** X19.  The unsuppress loop keeps the holes and their names, unsuppresses
    exactly the leading run of holes named "dogbone...", and leaves every
    hole from the first differently named one onwards as it was, dogbones
    among them included. *)
Theorem unsuppressDogbones_leading_run (holes : list HoleFeature) :
  holeName <$> unsuppressDogbones holes = holeName <$> holes
  ∧ ∀ (i : nat) (hole : HoleFeature),
      holes !! i = Some hole →
      (Forall (fun h => namedDogbone h = true) (take (S i) holes) →
         unsuppressDogbones holes !! i = Some (mkHole (holeName hole) false))
      ∧ (¬ Forall (fun h => namedDogbone h = true) (take (S i) holes) →
         unsuppressDogbones holes !! i = Some hole).
Proof.
  induction holes as [|h0 rest [IHn IHi]]; [by split|].
  cbn [unsuppressDogbones]. fold (namedDogbone h0).
  destruct (namedDogbone h0) eqn:Hd; cbn [negb].
  - split; [by rewrite !fmap_cons, IHn|]. intros [|i] hole Hi; simpl in Hi.
    + injection Hi as <-. split; [done|].
      intros Hnot. exfalso. apply Hnot. by repeat constructor.
    + destruct (IHi i hole Hi) as [Hyes Hno]. split.
      * intros Hall. apply Forall_cons in Hall as [_ Hall]. by apply Hyes.
      * intros Hnot. apply Hno. intros Hall. apply Hnot.
        by apply Forall_cons.
  - split; [done|]. intros i hole Hi. split; [|done].
    intros Hall. apply Forall_cons in Hall as [Hh0 _]. congruence.
Qed.

Lemma unsuppressDogbones_leading_run_witness :
  unsuppressDogbones
    [mkHole "dogbone" true; mkHole "Hole1" true; mkHole "dogbone1" true]
    !! 2%nat
  = Some (mkHole "dogbone1" true).
Proof.
  destruct (unsuppressDogbones_leading_run
              [mkHole "dogbone" true; mkHole "Hole1" true;
               mkHole "dogbone1" true]) as [_ H].
  destruct (H 2%nat (mkHole "dogbone1" true) eq_refl) as [_ Hno].
  apply Hno. intros Hall. simpl in Hall.
  apply Forall_cons in Hall as [_ Hall].
  apply Forall_cons in Hall as [Hbad _]. discriminate.
Defined.

Lemma sum_indicator {A} `{EqDecision A} (x : A) (ds : list A) :
  NoDup ds → x ∈ ds →
  sum_list_with (fun d => if decide (x = d) then 1%nat else 0%nat) ds = 1%nat.
Proof.
  induction ds as [|d ds IH]; intros Hnd Hx; [by apply elem_of_nil in Hx|].
  apply NoDup_cons in Hnd as [Hd Hnd]. simpl.
  destruct (decide (x = d)) as [->|Hne].
  - assert (sum_list_with (fun d0 => if decide (d = d0) then 1%nat else 0%nat)
              ds = 0%nat) as ->; [|done].
    clear IH Hnd Hx. induction ds as [|e ds IH]; [done|]. simpl.
    destruct (decide (d = e)) as [->|_]; [exfalso; apply Hd; left|].
    apply IH. intros He. apply Hd. by right.
  - apply elem_of_cons in Hx as [->|Hx]; [done|]. by rewrite IH.
Qed.

Lemma sum_filter_lengths {P : Type} (ds : list R) (l : list (R * P)) :
  NoDup ds → (∀ h, h ∈ l → fst h ∈ ds) →
  sum_list_with (fun d => length (filter (fun h => fst h = d) l)) ds
  = length l.
Proof.
  intros Hnd. induction l as [|h l IH]; intros Hin.
  - clear. induction ds as [|d ds IHd]; [done|]. simpl in *. by rewrite IHd.
  - change (length (h :: l)) with (1 + length l)%nat.
    rewrite <- IH by (intros g Hg; apply Hin; by right).
    rewrite <- (sum_indicator (fst h) ds Hnd) by (apply Hin; left).
    clear. induction ds as [|d ds IHd]; [done|].
    cbn [sum_list_with]. rewrite filter_cons.
    destruct (decide (fst h = d)); cbn [length]; lia.
Qed.

Lemma sum_group_sizes {P : Type} (ds : list R) (l : list (R * P)) :
  sum_list_with (fun group : R * list P => length (snd group))
    ((fun depth => (depth, pointCollection depth l)) <$> ds)
  = sum_list_with (fun d => length (filter (fun h => fst h = d) l)) ds.
Proof.
  induction ds as [|d ds IH]; [done|].
  rewrite fmap_cons. cbn [sum_list_with snd]. rewrite IH.
  unfold pointCollection. by rewrite length_fmap.
Qed.

(** X20.  The depth grouping of [createStaticDogbones] is a partition of
    the recorded holes: the depths are pairwise distinct, each group is
    non-empty and holds exactly the points recorded with its depth, every
    recorded point is in the group of its depth, and the group sizes add up
    to the number of holes. *)
Theorem holeGroups_partition {P : Type} (holeList : list (R * P)) :
  NoDup (fst <$> holeGroups holeList)
  ∧ (∀ depth points, (depth, points) ∈ holeGroups holeList →
       points ≠ [] ∧ points = pointCollection depth holeList)
  ∧ (∀ depth p, (depth, p) ∈ holeList ↔
       ∃ points, (depth, points) ∈ holeGroups holeList ∧ p ∈ points)
  ∧ sum_list_with (fun group => length (snd group)) (holeGroups holeList)
    = length holeList.
Proof.
  assert (Hfst : fst <$> holeGroups holeList = depthList holeList).
  { unfold holeGroups. rewrite <- list_fmap_compose. apply list_fmap_id. }
  assert (Hpc : ∀ depth p,
            p ∈ pointCollection depth holeList ↔ (depth, p) ∈ holeList).
  { intros depth p. unfold pointCollection. rewrite list_elem_of_fmap. split.
    - intros ([d q] & -> & Hq). apply list_elem_of_filter in Hq as [Hd Hq].
      simpl in *. by subst.
    - intros Hp. exists (depth, p). split; [done|].
      by apply list_elem_of_filter. }
  assert (Hgroup : ∀ depth points, (depth, points) ∈ holeGroups holeList ↔
            depth ∈ fst <$> holeList
            ∧ points = pointCollection depth holeList).
  { intros depth points. unfold holeGroups, depthList.
    rewrite list_elem_of_fmap. split.
    - intros (d & [= -> ->] & Hd).
      split; [|done]. by apply (proj1 (elem_of_remove_dups _ _)).
    - intros [Hd ->]. exists depth. split; [done|].
      by apply (proj2 (elem_of_remove_dups _ _)). }
  split_and!.
  - rewrite Hfst. apply NoDup_remove_dups.
  - intros depth points [Hd ->]%Hgroup. split; [|done].
    apply list_elem_of_fmap in Hd as ([d p] & -> & Hp). simpl.
    intros Hnil. apply Hpc in Hp. rewrite Hnil in Hp.
    by apply elem_of_nil in Hp.
  - intros depth p. split.
    + intros Hp. exists (pointCollection depth holeList). split.
      * apply Hgroup. split; [|done]. apply list_elem_of_fmap.
        by exists (depth, p).
      * by apply Hpc.
    + intros (points & [_ ->]%Hgroup & Hp). by apply Hpc.
  - unfold holeGroups. rewrite sum_group_sizes.
    apply sum_filter_lengths.
    + apply NoDup_remove_dups.
    + intros h Hh. apply elem_of_remove_dups, list_elem_of_fmap. by exists h.
Qed.

Lemma correctedEdgeVector_far_end (edge : BRepEdge) (commonPoint : Point3D) :
  geometry (startVertex edge) ≠ geometry (endVertex edge) →
  commonPoint = geometry (startVertex edge)
  ∨ commonPoint = geometry (endVertex edge) →
  let farEnd := translateBy commonPoint (correctedEdgeVector edge commonPoint) in
  (farEnd = geometry (startVertex edge) ∨ farEnd = geometry (endVertex edge))
  ∧ farEnd ≠ commonPoint.
Proof.
  intros Hne Hc. unfold correctedEdgeVector.
  destruct (isEqualTo (geometry (startVertex edge)) commonPoint) eqn:Heq.
  - apply isEqualTo_eq in Heq as <-. rewrite translateBy_vectorTo.
    split; [by right|congruence].
  - destruct Hc as [->| ->].
    + assert (isEqualTo (geometry (startVertex edge))
                (geometry (startVertex edge)) = true) by (by apply isEqualTo_eq).
      congruence.
    + rewrite translateBy_vectorTo. split; [by left|done].
Qed.

(** X21.  In Mortise style, without "from top", the centre point that
    [createParametricDogbones] hands to the kernel is the far end of the
    corner edge that receives the zero clearance: a whole edge away from the
    corner, whatever the tool radius.  (The corner is taken to be an end of
    both corner edges, and the edges to be non-degenerate.) *)
Theorem parametric_mortise_centre_far_end (param : DbParams) (longSide : bool)
    (radius : R) (vertex : BRepVertex) (edge1 edge2 : BRepEdge)
    (selectedEdgeFaces : BRepFace * BRepFace) (transformVector : Vector3D) :
  let corner := geometry vertex in
  let pos := createParametricDogbones_edge param longSide radius vertex
               edge1 edge2 selectedEdgeFaces transformVector in
  let farEndOf (e : BRepEdge) :=
    centrePoint pos = geometry (startVertex e)
    ∨ centrePoint pos = geometry (endVertex e) in
  isMortise param = true →
  fromTop param = false →
  geometry (startVertex edge1) ≠ geometry (endVertex edge1) →
  geometry (startVertex edge2) ≠ geometry (endVertex edge2) →
  corner = geometry (startVertex edge1)
  ∨ corner = geometry (endVertex edge1) →
  corner = geometry (startVertex edge2)
  ∨ corner = geometry (endVertex edge2) →
  centrePoint pos ≠ corner
  ∧ ((edge1OffsetByStr pos = createByReal 0 ∧ farEndOf edge1)
     ∨ (edge2OffsetByStr pos = createByReal 0 ∧ farEndOf edge2)).
Proof.
  intros corner pos farEndOf Hm Hf Hn1 Hn2 Hc1 Hc2.
  destruct (correctedEdgeVector_far_end edge1 corner Hn1 Hc1) as [He1 Hf1].
  destruct (correctedEdgeVector_far_end edge2 corner Hn2 Hc2) as [He2 Hf2].
  unfold farEndOf, pos, createParametricDogbones_edge. rewrite Hm, Hf.
  destruct longSide, (Rgt_dec (e_length edge1) (e_length edge2));
    cbn [centrePoint edge1OffsetByStr edge2OffsetByStr];
    (split; [done|]); [left|right|right|left]; by split.
Qed.

Lemma parametric_mortise_centre_far_end_witness :
  centrePoint
    (createParametricDogbones_edge Corner.mortiseParam true 1 Corner.corner
       Corner.eX Corner.eY (Corner.wallX, Corner.wallY) (Vec 0 0 0))
  ≠ geometry Corner.corner.
Proof.
  apply (parametric_mortise_centre_far_end Corner.mortiseParam true 1
           Corner.corner Corner.eX Corner.eY (Corner.wallX, Corner.wallY)
           (Vec 0 0 0)); try reflexivity.
  - simpl. intros [= H]. lra.
  - simpl. intros [= H]. lra.
  - by left.
  - by right.
Defined.

(** A dialog with one selected face and a quarter-unit tool is valid,
    whatever its diameter offset. *)
Lemma onValidate_valid_iff_witness :
  onValidate [mkInput "faceSelect" 1 0; mkInput "toolDia" 0 (1/4);
              mkInput "toolDiaOffset" 0 (-1)] true = true.
Proof.
  apply (proj2 (onValidate_valid_iff
                  [mkInput "faceSelect" 1 0; mkInput "toolDia" 0 (1/4);
                   mkInput "toolDiaOffset" 0 (-1)] true)).
  split; [reflexivity|].
  repeat constructor; simpl; intros; try discriminate; try lia; lra.
Defined.

(** Three holes at two depths. *)
Lemma holeGroups_partition_witness :
  sum_list_with (fun group : R * list nat => length (snd group))
    (holeGroups [(1, 10%nat); (2, 20%nat); (1, 30%nat)])
  = 3%nat.
Proof.
  destruct (holeGroups_partition [(1, 10%nat); (2, 20%nat); (1, 30%nat)])
    as (_ & _ & _ & Hsum).
  exact Hsum.
Defined.
